(** * global_weather: the globe's coordinate maths, the ISS poller and the
    click coordinator of [frontend/src/App.js]

    The development embeds four parts of [App.js]:

    - [Geo]: [getVectorFromLatLon] and the inverse computed in [Sphere]'s
      [handleClick].  JavaScript numbers are read as real numbers, so that
      rounding, overflow and NaN are outside the model; the discrepancies
      stated below are of 90 degrees, far above any rounding error.
    - [Weather]: [getWeatherDescription] and its table of WMO codes.
    - [Poller]: the effect of [SatelliteTracker] ([setInterval] on a virtual
      clock, the asynchronous [fetchIssPosition] as a resumable task).
    - [Coordinator]: [App]'s [handleGlobeClick] and [handleCloseWeather],
      every [await] being a point at which other handlers may run. *)

From Stdlib Require Import Reals Lra Lia ZArith List String.
From stdpp Require Import gmap strings.
Import ListNotations.

(** ** Geo-projector *)

Module Geo.
Local Open Scope R_scope.

(** [THREE.Vector3], with the one method the code calls on it. *)
Record Vector3 := mkVector3 { vx : R; vy : R; vz : R }.

Definition length (p : Vector3) : R :=
  sqrt (vx p * vx p + vy p * vy p + vz p * vz p).

Definition multiplyScalar (k : R) (p : Vector3) : Vector3 :=
  mkVector3 (k * vx p) (k * vy p) (k * vz p).

Record GeoCoordinate := mkGeo { latitude : R; longitude : R }.

Definition valid (c : GeoCoordinate) : Prop :=
  -90 <= latitude c <= 90 /\ -180 <= longitude c <= 180.

(** [Math.atan2 (y, x)] on reals: the angle of the point [(x, y)], in
    (-PI, PI].  There is no negative zero among the reals; on the negative
    x axis the value is [PI], as [Math.atan2 (0, -1)] is. *)
Definition atan2 (y x : R) : R :=
  match total_order_T 0 x with
  | inleft (left _) => atan (y / x)
  | inleft (right _) =>
      match total_order_T 0 y with
      | inleft (left _) => PI / 2
      | inleft (right _) => 0
      | inright _ => - (PI / 2)
      end
  | inright _ =>
      if Rle_dec 0 y then atan (y / x) + PI else atan (y / x) - PI
  end.

(** Lines 9-16. *)
Definition getVectorFromLatLon (lat lon radius : R) : Vector3 :=
  let phi := (90 - lat) * (PI / 180) in
  let theta := (lon + 180) * (PI / 180) in
  let x := - (radius * sin phi * cos theta) in
  let z := radius * sin phi * sin theta in
  let y := radius * cos phi in
  mkVector3 x y z.

(** Lines 197-200 of [handleClick]: the coordinate read off a clicked
    point. *)
Definition unproject (point : Vector3) : GeoCoordinate :=
  let phi := acos (vy point / length point) in
  let theta := atan2 (vx point) (vz point) in
  let lat := 90 - (phi * 180) / PI in
  let lon := (theta * 180) / PI in
  mkGeo lat lon.

Definition project (c : GeoCoordinate) (radius : R) : Vector3 :=
  getVectorFromLatLon (latitude c) (longitude c) radius.

(** Lines 194-203: what [handleClick] hands to [onGlobeClick]. *)
Definition handleClick (point : Vector3) : R * R * Vector3 :=
  let c := unproject point in
  let position := getVectorFromLatLon (latitude c) (longitude c) (105 / 100) in
  (latitude c, longitude c, position).

(** Two coordinates agree within the tolerance [eps], component by
    component. *)
Definition within (eps : R) (c d : GeoCoordinate) : Prop :=
  Rabs (latitude c - latitude d) <= eps /\
  Rabs (longitude c - longitude d) <= eps.

(** Wrapping a longitude in degrees into (-180, 180]. *)
Definition wrap180 (d : R) : R := if Rle_dec d 180 then d else d - 360.

End Geo.

(** ** JavaScript values *)

(** Truthiness of a string: only the empty string is falsy. *)
Definition truthy (s : string) : bool := negb (String.eqb s EmptyString).

(** ** Weather descriptions *)

Module Weather.
Local Open Scope Z_scope.
Local Open Scope string_scope.

(** The argument of [getWeatherDescription]: a WMO code as Open-Meteo sends
    it (an integer number), or [undefined], which is what reading
    [weather.daily.weather_code[i]] past the end of the array gives. *)
Inductive code_arg := undefined | number (n : Z).

(** The object literal of lines 20-27.  Its keys are integer literals; a
    number finds a key exactly when it is that integer. *)
Definition codes : gmap Z string :=
  <[0 := "Clear sky"]> (<[1 := "Mainly clear"]> (<[2 := "Partly cloudy"]>
  (<[3 := "Overcast"]> (<[45 := "Fog"]> (<[48 := "Rime fog"]>
  (<[51 := "Light drizzle"]> (<[53 := "Moderate drizzle"]>
  (<[55 := "Dense drizzle"]> (<[61 := "Slight rain"]>
  (<[63 := "Moderate rain"]> (<[65 := "Heavy rain"]>
  (<[80 := "Slight rain showers"]> (<[81 := "Moderate rain showers"]>
  (<[82 := "Violent rain showers"]> (<[95 := "Thunderstorm"]> ∅))))))))))))))).

(** The keys of [codes]. *)
Definition listed : list Z :=
  [0; 1; 2; 3; 45; 48; 51; 53; 55; 61; 63; 65; 80; 81; 82; 95].

(** [codes[code]]: the key [undefined] is not in the object. *)
Definition property (code : code_arg) : option string :=
  match code with
  | undefined => None
  | number n => codes !! n
  end.

(** [v || d] for a property read [v] ([None] is [undefined]). *)
Definition or_else (v : option string) (d : string) : string :=
  match v with
  | Some s => if truthy s then s else d
  | None => d
  end.

(** Lines 19-29. *)
Definition getWeatherDescription (code : code_arg) : string :=
  or_else (property code) "Unknown weather".

End Weather.

(** ** What an [await] delivers *)

Inductive settled (A : Type) : Type :=
| fulfilled (a : A)
| rejected (reason : string).
Arguments fulfilled {A} a.
Arguments rejected {A} reason.

(** How a block of statements ends, and how far a resumed [async] function
    gets: to its next [await], or to its end. *)
Inductive completion := normal | throw (error : string).

Inductive progress (Stage : Type) : Type :=
| suspend (k : Stage)
| finish (c : completion).
Arguments suspend {Stage} k.
Arguments finish {Stage} c.

(** One whole lookup ([fetch] followed by [.json()]), by the way it ends. *)
Inductive lookup (A : Type) : Type :=
| fetchFails (reason : string)
| jsonFails (reason : string)
| delivers (a : A).
Arguments fetchFails {A} reason.
Arguments jsonFails {A} reason.
Arguments delivers {A} a.

(** ** The ISS poller of [SatelliteTracker] *)

Module Poller.
Local Open Scope string_scope.

Section Tracker.
(** [Num]: the values found under [data.latitude] and [data.longitude];
    [zero] is the number 0 of the initial state. *)
Context {Num : Type} (zero : Num).

Record IssPosition := mkPos { lat : Num; lon : Num }.

(** The two [await]s of [fetchIssPosition] (lines 157 and 158). *)
Inductive stage := awaitFetch | awaitJson.

(** What is delivered to a suspended call: the response of [fetch], or the
    parsed body, [None] being the JSON value [null]. *)
Inductive delivery :=
| response (r : settled unit)
| body (r : settled (option (Num * Num))).

(** The mounted component on a virtual clock counting milliseconds.
    [interval] is the time at which the timer of line 164 fires next;
    [tasks] holds the calls of [fetchIssPosition] that are in flight, keyed
    by call number; [calls] lists the times of all calls, latest first. *)
Record Tracker := mkTracker {
  issPosition : IssPosition;
  now : nat;
  interval : nat;
  tasks : gmap nat stage;
  calls : list nat;
  console : list (string * string)
}.

Definition intervalMs : nat := 2000.

(** Lines 151 and 164: the state once the effect has run at time [t0].
    Nothing but [setInterval] is called. *)
Definition mount (t0 : nat) : Tracker :=
  {| issPosition := mkPos zero zero; now := t0; interval := t0 + intervalMs;
     tasks := ∅; calls := []; console := [] |}.

Definition in_flight (s : Tracker) : nat := size (tasks s).

Definition setIssPosition (p : IssPosition) (s : Tracker) : Tracker :=
  {| issPosition := p; now := now s; interval := interval s;
     tasks := tasks s; calls := calls s; console := console s |}.

Definition console_error (msg error : string) (s : Tracker) : Tracker :=
  {| issPosition := issPosition s; now := now s; interval := interval s;
     tasks := tasks s; calls := calls s;
     console := console s ++ [(msg, error)] |}.

Definition set_tasks (m : gmap nat stage) (s : Tracker) : Tracker :=
  {| issPosition := issPosition s; now := now s; interval := interval s;
     tasks := m; calls := calls s; console := console s |}.

(** The [try] block of lines 156-160, from the [await] at which the call
    is suspended, given what that [await] delivers.  A delivery of the
    wrong kind for the stage leaves the call suspended. *)
Definition try_block (k : stage) (d : delivery) (s : Tracker)
  : Tracker * progress stage :=
  match k, d with
  | awaitFetch, response (fulfilled _) => (s, suspend awaitJson)
  | awaitFetch, response (rejected e) => (s, finish (throw e))
  | awaitJson, body (fulfilled (Some (la, lo))) =>
      (setIssPosition (mkPos la lo) s, finish normal)
  | awaitJson, body (fulfilled None) => (s, finish (throw "TypeError"))
  | awaitJson, body (rejected e) => (s, finish (throw e))
  | _, _ => (s, suspend k)
  end.

(** Lines 160-162: the [catch] clause around it. *)
Definition catch (r : Tracker * progress stage) : Tracker * progress stage :=
  match r with
  | (s, finish (throw e)) =>
      (console_error "Failed to fetch ISS position:" e s, finish normal)
  | _ => r
  end.

Definition resume (k : stage) (d : delivery) (s : Tracker)
  : Tracker * progress stage :=
  catch (try_block k d s).

(** A call of [fetchIssPosition] by the timer: it runs to its first
    [await]. *)
Definition fetchIssPosition (s : Tracker) : Tracker :=
  {| issPosition := issPosition s; now := now s; interval := interval s;
     tasks := <[List.length (calls s) := awaitFetch]> (tasks s);
     calls := now s :: calls s; console := console s |}.

Inductive event :=
| Elapse
| Settle (id : nat) (d : delivery).

(** One millisecond passes; a timer that is due fires and is re-armed. *)
Definition elapse (s : Tracker) : Tracker :=
  let s1 := {| issPosition := issPosition s; now := S (now s);
               interval := interval s; tasks := tasks s; calls := calls s;
               console := console s |} in
  if (interval s1 <=? now s1)%nat then
    let s2 := fetchIssPosition s1 in
    {| issPosition := issPosition s2; now := now s2;
       interval := interval s2 + intervalMs;
       tasks := tasks s2; calls := calls s2; console := console s2 |}
  else s1.

Definition settle (id : nat) (d : delivery) (s : Tracker) : Tracker :=
  match tasks s !! id with
  | None => s
  | Some k =>
      match resume k d s with
      | (s', suspend k') => set_tasks (<[id := k']> (tasks s')) s'
      | (s', finish _) => set_tasks (delete id (tasks s')) s'
      end
  end.

Definition step (s : Tracker) (e : event) : Tracker :=
  match e with
  | Elapse => elapse s
  | Settle id d => settle id d s
  end.

Definition run (s : Tracker) (evs : list event) : Tracker :=
  fold_left step evs s.

(** The deliveries of one attempt, by the way the lookup ends. *)
Definition deliveries (l : lookup (option (Num * Num))) : list delivery :=
  match l with
  | fetchFails e => [response (rejected e)]
  | jsonFails e => [response (fulfilled tt); body (rejected e)]
  | delivers a => [response (fulfilled tt); body (fulfilled a)]
  end.

(** An attempt fails when [fetch] or [.json()] rejects, or when the body
    is [null] and reading [data.latitude] throws. *)
Definition fails (l : lookup (option (Num * Num))) : option string :=
  match l with
  | fetchFails e => Some e
  | jsonFails e => Some e
  | delivers None => Some "TypeError"
  | delivers (Some _) => None
  end.

(** The milliseconds that pass during a list of events. *)
Fixpoint elapsed (evs : list event) : nat :=
  match evs with
  | [] => 0
  | Elapse :: evs' => S (elapsed evs')
  | Settle _ _ :: evs' => elapsed evs'
  end.

(** The times of the calls made once [e] milliseconds have passed since a
    mount at [t0], latest first. *)
Definition schedule (t0 e : nat) : list nat :=
  rev (map (fun k => t0 + k * intervalMs) (seq 1 (e / intervalMs))).

(** What holds of the tracker [e] milliseconds after its mount at [t0]. *)
Record inv (t0 e : nat) (s : Tracker) : Prop := {
  inv_now : now s = t0 + e;
  inv_interval : interval s = t0 + S (e / intervalMs) * intervalMs;
  inv_calls : calls s = schedule t0 e;
  inv_tasks : forall id k, tasks s !! id = Some k -> id < List.length (calls s)
}.

End Tracker.
End Poller.

(** ** The click coordinator of [App] *)

Module Coordinator.
Local Open Scope string_scope.

Section App.
(** [Coord]: the numbers [lat] and [lon] of a click; [Weather]: the parsed
    Open-Meteo body, an object; [Position]: a [THREE.Vector3]. *)
Context {Coord Weather Position : Type}.

(** The part of the Nominatim body the code reads; [None] is a missing (or
    falsy) property. *)
Record Address := mkAddress { country : option string }.
Record GeoData := mkGeoData { address : option Address }.

(** Lines 216-217: the two pieces of React state; [None] is [null]. *)
Record ClickedInfo := mkInfo {
  position : option Position;
  countryName : option string
}.

Record App := mkApp { weather : option Weather; clickedInfo : ClickedInfo }.

Definition initial : App := mkApp None (mkInfo None None).

Definition setWeather (w : option Weather) (a : App) : App :=
  mkApp w (clickedInfo a).

Definition setClickedInfo (f : ClickedInfo -> ClickedInfo) (a : App) : App :=
  mkApp (weather a) (f (clickedInfo a)).

(** [prev => ({ ...prev, countryName: c })] *)
Definition withCountryName (c : string) (prev : ClickedInfo) : ClickedInfo :=
  mkInfo (position prev) (Some c).

(** Line 261: the panel, and with it the close button, is rendered when
    [weather && clickedInfo.position]. *)
Definition panel (a : App) : bool :=
  match weather a, position (clickedInfo a) with
  | Some _, Some _ => true
  | _, _ => false
  end.

(** The four [await]s of [handleGlobeClick] (lines 225, 226, 235, 236). *)
Inductive stage :=
| awaitWeatherFetch | awaitWeatherJson | awaitGeoFetch | awaitGeoJson.

Inductive delivery :=
| response (r : settled unit)
| weatherBody (r : settled (option Weather))
| geoBody (r : settled (option GeoData)).

(** The view with its suspended calls of [handleGlobeClick], keyed by call
    number. *)
Record World := mkWorld {
  app : App;
  tasks : gmap nat stage;
  started : nat;
  console : list (string * string)
}.

Definition on_app (f : App -> App) (w : World) : World :=
  {| app := f (app w); tasks := tasks w; started := started w;
     console := console w |}.

Definition console_error (msg error : string) (w : World) : World :=
  {| app := app w; tasks := tasks w; started := started w;
     console := console w ++ [(msg, error)] |}.

Definition set_tasks (m : gmap nat stage) (w : World) : World :=
  {| app := app w; tasks := m; started := started w; console := console w |}.

(** Lines 224-227: the first [try] block from the [await] at which the call
    is suspended. *)
Definition first_try (k : stage) (d : delivery) (w : World)
  : World * progress stage :=
  match k, d with
  | awaitWeatherFetch, response (fulfilled _) => (w, suspend awaitWeatherJson)
  | awaitWeatherFetch, response (rejected e) => (w, finish (throw e))
  | awaitWeatherJson, weatherBody (fulfilled b) =>
      (on_app (setWeather b) w, finish normal)
  | awaitWeatherJson, weatherBody (rejected e) => (w, finish (throw e))
  | _, _ => (w, suspend k)
  end.

(** Lines 228-231. *)
Definition first_catch (r : World * progress stage) : World * progress stage :=
  match r with
  | (w, finish (throw e)) =>
      (on_app (setWeather None)
         (console_error "Failed to fetch weather data:" e w), finish normal)
  | _ => r
  end.

(** Once the first [try] statement is over the second one starts and runs
    to its first [await] (line 235). *)
Definition then_second (r : World * progress stage) : World * progress stage :=
  match r with
  | (w, finish normal) => (w, suspend awaitGeoFetch)
  | _ => r
  end.

(** Lines 237-241. *)
Definition applyGeoData (g : GeoData) (a : App) : App :=
  match address g with
  | Some ad =>
      match country ad with
      | Some c =>
          if truthy c then setClickedInfo (withCountryName c) a
          else setClickedInfo (withCountryName "Unknown Country") a
      | None => setClickedInfo (withCountryName "Unknown Country") a
      end
  | None => setClickedInfo (withCountryName "Unknown Country") a
  end.

(** Lines 234-241: the second [try] block; reading [geoData.address] of
    [null] throws. *)
Definition second_try (k : stage) (d : delivery) (w : World)
  : World * progress stage :=
  match k, d with
  | awaitGeoFetch, response (fulfilled _) => (w, suspend awaitGeoJson)
  | awaitGeoFetch, response (rejected e) => (w, finish (throw e))
  | awaitGeoJson, geoBody (fulfilled (Some g)) =>
      (on_app (applyGeoData g) w, finish normal)
  | awaitGeoJson, geoBody (fulfilled None) => (w, finish (throw "TypeError"))
  | awaitGeoJson, geoBody (rejected e) => (w, finish (throw e))
  | _, _ => (w, suspend k)
  end.

(** Lines 242-245. *)
Definition second_catch (r : World * progress stage) : World * progress stage :=
  match r with
  | (w, finish (throw e)) =>
      (on_app (setClickedInfo (withCountryName "Unknown Country"))
         (console_error "Failed to fetch country name:" e w), finish normal)
  | _ => r
  end.

Definition resume (k : stage) (d : delivery) (w : World)
  : World * progress stage :=
  match k with
  | awaitWeatherFetch | awaitWeatherJson =>
      then_second (first_catch (first_try k d w))
  | awaitGeoFetch | awaitGeoJson => second_catch (second_try k d w)
  end.

(** Lines 220-225: a call of [handleGlobeClick] up to its first [await]. *)
Definition handleGlobeClick (lat lon : Coord) (pos : Position) (w : World)
  : World :=
  {| app := setClickedInfo (fun _ => mkInfo (Some pos) None) (app w);
     tasks := <[started w := awaitWeatherFetch]> (tasks w);
     started := S (started w);
     console := console w |}.

(** Lines 248-251. *)
Definition handleCloseWeather (a : App) : App :=
  setClickedInfo (fun _ => mkInfo None None) (setWeather None a).

Inductive event :=
| Click (lat lon : Coord) (pos : Position)
| Settle (id : nat) (d : delivery)
| Close.

Definition settle (id : nat) (d : delivery) (w : World) : World :=
  match tasks w !! id with
  | None => w
  | Some k =>
      match resume k d w with
      | (w', suspend k') => set_tasks (<[id := k']> (tasks w')) w'
      | (w', finish _) => set_tasks (delete id (tasks w')) w'
      end
  end.

(** The close button exists only while the panel is rendered. *)
Definition step (w : World) (e : event) : World :=
  match e with
  | Click lat lon pos => handleGlobeClick lat lon pos w
  | Settle id d => settle id d w
  | Close => if panel (app w) then on_app handleCloseWeather w else w
  end.

Definition run (w : World) (evs : list event) : World :=
  fold_left step evs w.

Definition start : World :=
  {| app := initial; tasks := ∅; started := 0; console := [] |}.

(** The deliveries of the two lookups of one call, by the way each ends. *)
Definition weather_deliveries (l : lookup (option Weather)) : list delivery :=
  match l with
  | fetchFails e => [response (rejected e)]
  | jsonFails e => [response (fulfilled tt); weatherBody (rejected e)]
  | delivers b => [response (fulfilled tt); weatherBody (fulfilled b)]
  end.

Definition geo_deliveries (l : lookup (option GeoData)) : list delivery :=
  match l with
  | fetchFails e => [response (rejected e)]
  | jsonFails e => [response (fulfilled tt); geoBody (rejected e)]
  | delivers b => [response (fulfilled tt); geoBody (fulfilled b)]
  end.

(** What the completion of each lookup does to the React state. *)
Definition weather_done (l : lookup (option Weather)) (a : App) : App :=
  match l with
  | delivers b => setWeather b a
  | _ => setWeather None a
  end.

Definition geo_done (l : lookup (option GeoData)) (a : App) : App :=
  match l with
  | delivers (Some g) => applyGeoData g a
  | _ => setClickedInfo (withCountryName "Unknown Country") a
  end.

(** The values the two lookups leave in [weather] and [countryName]. *)
Definition weather_result (l : lookup (option Weather)) : option Weather :=
  match l with
  | delivers b => b
  | _ => None
  end.

Definition country_of (g : GeoData) : string :=
  match address g with
  | Some ad =>
      match country ad with
      | Some c => if truthy c then c else "Unknown Country"
      | None => "Unknown Country"
      end
  | None => "Unknown Country"
  end.

Definition country_result (l : lookup (option GeoData)) : string :=
  match l with
  | delivers (Some g) => country_of g
  | _ => "Unknown Country"
  end.

Definition has_country (g : GeoData) : bool :=
  match address g with
  | Some ad => match country ad with Some c => truthy c | None => false end
  | None => false
  end.

(** The place-name lookup fails, or its result contains no country. *)
Definition no_country (l : lookup (option GeoData)) : bool :=
  match l with
  | delivers (Some g) => negb (has_country g)
  | _ => true
  end.

(** The specification's state Populated: both lookup fields are present. *)
Definition populated (a : App) : bool :=
  match weather a, countryName (clickedInfo a) with
  | Some _, Some _ => true
  | _, _ => false
  end.

(** The specification's cleared SelectionState. *)
Definition cleared (a : App) : Prop :=
  weather a = None /\ position (clickedInfo a) = None /\
  countryName (clickedInfo a) = None.

Definition is_settle (e : event) : Prop :=
  match e with Settle _ _ => True | _ => False end.

(** A settlement in a call other than [id]. *)
Definition settles_other (id : nat) (e : event) : Prop :=
  match e with Settle j _ => j <> id | _ => False end.

(** The two lookups of the call [id] end as [wl] and [gl], nothing else
    happening meanwhile. *)
Definition settle_call (id : nat) (wl : lookup (option Weather))
    (gl : lookup (option GeoData)) (w : World) : World :=
  run w (map (Settle id) (weather_deliveries wl ++ geo_deliveries gl)).

(** One selection from the click to the end of its call. *)
Definition select (lat lon : Coord) (pos : Position)
    (wl : lookup (option Weather)) (gl : lookup (option GeoData))
    (w : World) : World :=
  settle_call (started w) wl gl (step w (Click lat lon pos)).

(** What a delivery [d] to a call suspended at stage [k] writes into
    [weather]: [Some b] when it ends the weather lookup of the call, [b]
    being the body or [None] after a failure (lines 227 and 230); [None]
    when it writes nothing there. *)
Definition weather_written (k : stage) (d : delivery)
  : option (option Weather) :=
  match k, d with
  | awaitWeatherFetch, response (rejected _) => Some None
  | awaitWeatherJson, weatherBody (fulfilled b) => Some b
  | awaitWeatherJson, weatherBody (rejected _) => Some None
  | _, _ => None
  end.

(** What it writes into [countryName]: [Some c] when it ends the place-name
    lookup of the call (lines 238, 240 and 244). *)
Definition name_written (k : stage) (d : delivery) : option string :=
  match k, d with
  | awaitGeoFetch, response (rejected _) => Some "Unknown Country"
  | awaitGeoJson, geoBody (fulfilled (Some g)) => Some (country_of g)
  | awaitGeoJson, geoBody (fulfilled None) => Some "Unknown Country"
  | awaitGeoJson, geoBody (rejected _) => Some "Unknown Country"
  | _, _ => None
  end.

(** The delivery ends the place-name lookup of the call by a failure or
    with a result that contains no country. *)
Definition unnamed (k : stage) (d : delivery) : bool :=
  match k, d with
  | awaitGeoFetch, response (rejected _) => true
  | awaitGeoJson, geoBody (fulfilled (Some g)) => negb (has_country g)
  | awaitGeoJson, geoBody (fulfilled None) => true
  | awaitGeoJson, geoBody (rejected _) => true
  | _, _ => false
  end.

(** The country name shown is absent or not empty. *)
Definition named (a : App) : Prop :=
  forall c, countryName (clickedInfo a) = Some c -> c <> "".

(** An event that can set [weather]: a weather body that is not [null]. *)
Definition brings_weather (e : event) : Prop :=
  match e with
  | Settle _ (weatherBody (fulfilled (Some _))) => True
  | _ => False
  end.

(** The numbers of the calls in flight are below [started]. *)
Definition numbered (w : World) : Prop :=
  forall id k, tasks w !! id = Some k -> id < started w.

End App.

(** Concrete runs: numbers for the coordinates, strings standing for the
    weather bodies and the positions. *)
Section Scenarios.
Local Open Scope Z_scope.

Definition france : GeoData := mkGeoData (Some (mkAddress (Some "France"))).
Definition brazil : GeoData := mkGeoData (Some (mkAddress (Some "Brazil"))).
Definition mid_ocean : GeoData := mkGeoData None.

Definition World0 : Type := @World string string.

(** A first selection, completed. *)
Definition afterA : World0 :=
  select 48 2 "pA" (delivers (Some "wA")) (delivers (Some france)) start.

(** A second selection starts; its call has number 1. *)
Definition clickedB : World0 := step afterA (Click (-10) (-55) "pB").

(** The panel is closed while both lookups of the second call are pending,
    and then they end. *)
Definition closedB : World0 := step clickedB (Close (Coord := Z)).

Definition lateB : World0 :=
  settle_call (Coord := Z) 1 (delivers (Some "wB")) (delivers (Some brazil))
    closedB.




(** One selection dismissed between its two lookups: the weather has
    arrived, the panel is closed, then the place name arrives. *)
Definition closedSingle : World0 :=
  run start
    [Click 48 2 "pA"; Settle 0 (response (fulfilled tt));
     Settle 0 (weatherBody (fulfilled (Some "wA"))); Close].

Definition lateSingle : World0 :=
  run (Coord := Z) closedSingle
    [Settle 0 (response (fulfilled tt));
     Settle 0 (geoBody (fulfilled (Some france)))].

(** Two selections whose lookups end interleaved: the weather of the
    first, the weather of the second, then the place name of the first. *)
Definition interleaved : World0 :=
  run start
    [Click 48 2 "pA"; Click (-10) (-55) "pB";
     Settle 0 (response (fulfilled tt));
     Settle 0 (weatherBody (fulfilled (Some "wA")));
     Settle 1 (response (fulfilled tt));
     Settle 1 (weatherBody (fulfilled (Some "wB")));
     Settle 0 (response (fulfilled tt));
     Settle 0 (geoBody (fulfilled (Some france)))].

(** A click while the network is down. *)
Definition offline : World0 :=
  select 0 0 "p" (fetchFails "NetworkError") (fetchFails "NetworkError") start.

End Scenarios.
End Coordinator.

(** ** The animated scene: the ISS mesh and the turning globe *)

Module Scene.
Import Geo.
Local Open Scope R_scope.

(** [Vector3.lerp (v, alpha)] of three.js: every component moves the
    fraction [alpha] of the way towards [v]. *)
Definition lerp (p v : Vector3) (alpha : R) : Vector3 :=
  mkVector3 (vx p + (vx v - vx p) * alpha)
            (vy p + (vy v - vy p) * alpha)
            (vz p + (vz v - vz p) * alpha).

Definition sub (a b : Vector3) : Vector3 :=
  mkVector3 (vx a - vx b) (vy a - vy b) (vz a - vz b).

Definition distanceTo (a b : Vector3) : R := length (sub a b).

(** Lines 168-173: one frame of [SatelliteTracker]; the position of the
    mesh is [None] as long as [issRef.current] is unset. *)
Definition issFrame (lat lon : R) (mesh : option Vector3) : option Vector3 :=
  match mesh with
  | Some position =>
      let positionVec := getVectorFromLatLon lat lon (12 / 10) in
      Some (lerp position positionVec (1 / 10))
  | None => None
  end.

Fixpoint issFrames (n : nat) (lat lon : R) (mesh : option Vector3)
  : option Vector3 :=
  match n with
  | O => mesh
  | S n' => issFrames n' lat lon (issFrame lat lon mesh)
  end.

(** The globe of [Sphere] with the flag [App] keeps for it. *)
Record Globe := mkGlobe { rotationY : R; isInteractingWithGlobe : bool }.

(** A rendered frame (lines 188-192), and the two callbacks of
    [OrbitControls] (lines 270-271). *)
Inductive event := Frame | Start | End.

Definition step (g : Globe) (e : event) : Globe :=
  match e with
  | Frame =>
      if isInteractingWithGlobe g then g
      else mkGlobe (rotationY g + 5 / 10000) (isInteractingWithGlobe g)
  | Start => mkGlobe (rotationY g) true
  | End => mkGlobe (rotationY g) false
  end.

Definition run (g : Globe) (evs : list event) : Globe := fold_left step evs g.

End Scene.

(** ** The weather panel of [WeatherInfo] *)

Module Panel.
Import Weather.
Local Open Scope Z_scope.

(** Lines 35-37: the drag state; pointer coordinates are whole pixels. *)
Record Drag := mkDrag {
  isDragging : bool;
  offset : Z * Z;
  startDrag : Z * Z
}.

Definition initial : Drag := mkDrag false (0, 0) (0, 0).

(** Lines 39-42. *)
Definition handleMouseDown (clientX clientY : Z) (d : Drag) : Drag :=
  mkDrag true (offset d)
         (clientX - fst (offset d), clientY - snd (offset d)).

(** Lines 44-47. *)
Definition handleMouseMove (clientX clientY : Z) (d : Drag) : Drag :=
  if isDragging d
  then mkDrag (isDragging d)
              (clientX - fst (startDrag d), clientY - snd (startDrag d))
              (startDrag d)
  else d.

(** Lines 49-51. *)
Definition handleMouseUp (d : Drag) : Drag :=
  mkDrag false (offset d) (startDrag d).

Inductive mouse :=
| MouseDown (clientX clientY : Z)
| MouseMove (clientX clientY : Z)
| MouseUp.

(** Lines 53-65 and 75: [mousedown] is heard on the panel, [mousemove] and
    [mouseup] on the window while [isDragging] holds. *)
Definition step (d : Drag) (e : mouse) : Drag :=
  match e with
  | MouseDown x y => handleMouseDown x y d
  | MouseMove x y => if isDragging d then handleMouseMove x y d else d
  | MouseUp => if isDragging d then handleMouseUp d else d
  end.

Definition run (d : Drag) (evs : list mouse) : Drag := fold_left step evs d.

(** The pointer positions of a gesture: where it went down, then where it
    moved. *)
Definition moves (path : list (Z * Z)) : list mouse :=
  map (fun p => MouseMove (fst p) (snd p)) path.

Definition gesture (down : Z * Z) (path : list (Z * Z)) : list mouse :=
  MouseDown (fst down) (snd down) :: moves path ++ [MouseUp].

(** The part of [weather.daily] the panel reads; [Temp] is the type of the
    temperatures. *)
Section Forecast.
Context {Temp : Type}.

Record Daily := mkDaily {
  time : list string;
  weather_code : list Z;
  temperature_2m_max : list Temp;
  temperature_2m_min : list Temp
}.

(** One line of the forecast; a temperature read past the end of its array
    is [undefined], here [None]. *)
Record Row := mkRow {
  date : string;
  description : string;
  maxTemp : option Temp;
  minTemp : option Temp
}.

(** [weather.daily.weather_code[i]] *)
Definition code_at (codes : list Z) (i : nat) : code_arg :=
  match codes !! i with
  | Some n => number n
  | None => undefined
  end.

(** Line 70: [weather.daily.time.slice (0, 3)]. *)
Definition dailyForecast (d : Daily) : list string := firstn 3 (time d).

(** Lines 95-101. *)
Definition forecastRows (d : Daily) : list Row :=
  imap (fun i day =>
          mkRow day (getWeatherDescription (code_at (weather_code d) i))
                (temperature_2m_max d !! i) (temperature_2m_min d !! i))
       (dailyForecast d).

End Forecast.
End Panel.

(** ** The event markers of [EventMarkers] *)

Module Markers.
Import Geo.
Local Open Scope string_scope.

Record Category := mkCategory { categoryId : string; categoryTitle : string }.

(** An EONET event; each geometry is given by its [coordinates], the pair
    [lon, lat]. *)
Record Event := mkEvent {
  eventId : string;
  title : string;
  geometries : list (R * R);
  categories : list Category
}.

Inductive color := orange | red | yellow.

(** Line 129. *)
Definition markerColor (c : Category) : color :=
  if String.eqb (categoryId c) "severeStorms" then orange
  else if String.eqb (categoryId c) "volcanoes" then red
  else yellow.

Record Marker := mkMarker {
  key : string;
  position : Vector3;
  markerColour : color
}.

(** Lines 127-134, the callback of [events.map]: [None] when it throws,
    reading [geometries[0].coordinates] or [categories[0].id] of an event
    that has no geometry or no category. *)
Definition marker (e : Event) : option Marker :=
  match geometries e with
  | [] => None
  | (lon, lat) :: _ =>
      let position := getVectorFromLatLon lat lon (101 / 100)%R in
      match categories e with
      | [] => None
      | c :: _ => Some (mkMarker (eventId e) position (markerColor c))
      end
  end.

(** Line 126: the markers rendered for a list of events; a throw in one
    callback ends the whole render. *)
Definition render (events : list Event) : option (list Marker) :=
  mapM marker events.

Definition well_formed (e : Event) : Prop :=
  geometries e <> [] /\ categories e <> [].

End Markers.

(** * Properties *)

(** ** Geo-projector *)

Module GeoProps.
Import Geo.
Local Open Scope R_scope.

Lemma length_multiplyScalar k p :
  0 < k -> length (multiplyScalar k p) = k * length p.
Proof.
  intros Hk. unfold length, multiplyScalar; simpl.
  replace (k * vx p * (k * vx p) + k * vy p * (k * vy p) + k * vz p * (k * vz p))
    with (k * k * (vx p * vx p + vy p * vy p + vz p * vz p)) by ring.
  rewrite sqrt_mult; [ | nra | nra ].
  rewrite sqrt_square; lra.
Qed.

Lemma scaled_ratio k a b : 0 < k -> (k * a) / (k * b) = a / b.
Proof.
  intros Hk. destruct (Req_dec b 0) as [-> | Hb].
  - rewrite Rmult_0_r. unfold Rdiv. rewrite Rinv_0. ring.
  - field. split; lra.
Qed.

Lemma atan2_scale k y x : 0 < k -> atan2 (k * y) (k * x) = atan2 y x.
Proof.
  intros Hk. unfold atan2.
  destruct (total_order_T 0 x) as [[Hx | Hx] | Hx];
  destruct (total_order_T 0 (k * x)) as [[Hkx | Hkx] | Hkx]; try nra.
  - now rewrite scaled_ratio.
  - destruct (total_order_T 0 y) as [[Hy | Hy] | Hy];
    destruct (total_order_T 0 (k * y)) as [[Hky | Hky] | Hky]; try nra; reflexivity.
  - rewrite scaled_ratio by assumption.
    destruct (Rle_dec 0 y), (Rle_dec 0 (k * y)); try nra; reflexivity.
Qed.

(** C9: for every point [p] of nonzero magnitude and every constant
    [k > 0], [unproject] of [p] scaled by [k] is [unproject p]: the height
    is divided by the length of the point before [acos] is taken, and
    [atan2] does not depend on the scale. *)
Theorem unproject_scale_invariant k p :
  0 < k -> 0 < length p -> unproject (multiplyScalar k p) = unproject p.
Proof.
  intros Hk Hp. unfold unproject.
  rewrite length_multiplyScalar by assumption. simpl.
  rewrite scaled_ratio by assumption.
  rewrite atan2_scale by assumption. reflexivity.
Qed.

Lemma atan2_pos_0 y : 0 < y -> atan2 y 0 = PI / 2.
Proof.
  intros Hy. unfold atan2.
  destruct (total_order_T 0 0) as [[H | H] | H]; try lra.
  destruct (total_order_T 0 y) as [[H1 | H1] | H1]; lra.
Qed.

Lemma project_origin : project (mkGeo 0 0) 1 = mkVector3 1 0 0.
Proof.
  unfold project, getVectorFromLatLon; simpl.
  replace ((90 - 0) * (PI / 180)) with (PI / 2) by field.
  replace ((0 + 180) * (PI / 180)) with PI by field.
  rewrite sin_PI2, cos_PI2, cos_PI, sin_PI. f_equal; ring.
Qed.

Lemma unproject_project_origin :
  unproject (project (mkGeo 0 0) 1) = mkGeo 0 90.
Proof.
  rewrite project_origin. unfold unproject, length; simpl.
  replace (1 * 1 + 0 * 0 + 0 * 0) with 1 by ring.
  rewrite sqrt_1. replace (0 / 1) with 0 by field.
  rewrite acos_0, atan2_pos_0 by lra.
  pose proof PI_neq0. f_equal; field; assumption.
Qed.

(** The sign of [cos] on (-PI, PI]. *)
Lemma cos_pos_range u : - PI < u <= PI -> 0 < cos u -> - (PI / 2) < u < PI / 2.
Proof.
  intros [Hl Hu] Hc. pose proof PI_RGT_0. split.
  - destruct (Rlt_dec (- (PI / 2)) u) as [|Hn]; [assumption|].
    assert (Hle : u <= - (PI / 2)) by lra.
    destruct (Req_dec u (- (PI / 2))) as [-> | Hne].
    + rewrite cos_neg, cos_PI2 in Hc. lra.
    + assert (cos (- u) < 0) by (apply cos_lt_0; lra).
      rewrite cos_neg in *. lra.
  - destruct (Rlt_dec u (PI / 2)) as [|Hn]; [assumption|].
    destruct (Req_dec u (PI / 2)) as [-> | Hne].
    + rewrite cos_PI2 in Hc. lra.
    + assert (cos u < 0) by (apply cos_lt_0; lra). lra.
Qed.

Lemma cos_zero_range u : - PI < u <= PI -> cos u = 0 -> u = PI / 2 \/ u = - (PI / 2).
Proof.
  intros [Hl Hu] Hc. pose proof PI_RGT_0.
  destruct (Rlt_dec (PI / 2) u).
  { assert (cos u < 0) by (apply cos_lt_0; lra). lra. }
  destruct (Rlt_dec u (- (PI / 2))).
  { assert (cos (- u) < 0) by (apply cos_lt_0; lra). rewrite cos_neg in *. lra. }
  destruct (Req_dec u (PI / 2)); [now left|].
  destruct (Req_dec u (- (PI / 2))); [now right|].
  assert (0 < cos u) by (apply cos_gt_0; lra). lra.
Qed.

Lemma tan_shift_PI u : tan (u + PI) = tan u.
Proof.
  unfold tan. rewrite neg_sin, neg_cos.
  destruct (Req_dec (cos u) 0) as [E | E].
  - rewrite E. unfold Rdiv. rewrite Ropp_0, Rinv_0. ring.
  - field. assumption.
Qed.

Lemma atan2_polar s u :
  0 < s -> - PI < u <= PI -> atan2 (s * sin u) (s * cos u) = u.
Proof.
  intros Hs [Hl Hu]. pose proof PI_RGT_0 as HPI. unfold atan2.
  destruct (total_order_T 0 (s * cos u)) as [[Hc | Hc] | Hc].
  - assert (0 < cos u) by nra.
    rewrite scaled_ratio by assumption. fold (tan u).
    apply atan_tan. apply cos_pos_range; [lra | assumption].
  - assert (Hc0 : cos u = 0) by nra.
    destruct (cos_zero_range u) as [-> | ->]; [lra | assumption | | ].
    + rewrite sin_PI2.
      destruct (total_order_T 0 (s * 1)) as [[? | ?] | ?]; lra.
    + rewrite sin_neg, sin_PI2.
      destruct (total_order_T 0 (s * - (1))) as [[? | ?] | ?]; lra.
  - assert (Hcn : cos u < 0) by nra.
    rewrite scaled_ratio by assumption. fold (tan u).
    assert (Hout : u <= - (PI / 2) \/ PI / 2 <= u).
    { destruct (Rle_dec u (- (PI / 2))); [now left|].
      destruct (Rle_dec (PI / 2) u); [now right|].
      assert (0 < cos u) by (apply cos_gt_0; lra). lra. }
    destruct (Rle_dec 0 (s * sin u)) as [Hy | Hy].
    + assert (0 <= sin u) by nra.
      assert (PI / 2 <= u).
      { destruct Hout as [Ho|]; [|assumption].
        assert (sin u < 0) by (apply sin_lt_0_var; lra). lra. }
      assert (PI / 2 <> u).
      { intros <-. rewrite cos_PI2 in Hcn. lra. }
      replace (tan u) with (tan (u - PI)).
      2:{ rewrite <- (tan_shift_PI (u - PI)). f_equal. ring. }
      rewrite atan_tan; lra.
    + assert (sin u < 0) by nra.
      assert (u <= - (PI / 2)).
      { destruct Hout as [|Ho]; [assumption|].
        destruct (Req_dec u PI) as [-> | ?].
        - rewrite sin_PI in *. lra.
        - assert (0 < sin u) by (apply sin_gt_0; lra). lra. }
      assert (u <> - (PI / 2)).
      { intros ->. rewrite cos_neg, cos_PI2 in Hcn. lra. }
      rewrite <- (tan_shift_PI u).
      rewrite atan_tan; lra.
Qed.

(** Away from the poles the latitude comes back, and the longitude comes
    back a quarter turn further east: [handleClick] measures the angle with
    [atan2 (x, z)], while [getVectorFromLatLon] puts longitude 0 on the
    positive x axis and turns towards negative z. *)
Lemma unproject_project_shifted c r :
  -90 < latitude c < 90 -> -180 <= longitude c <= 180 -> 0 < r ->
  unproject (project c r) = mkGeo (latitude c) (wrap180 (longitude c + 90)).
Proof.
  intros Hlat Hlon Hr. destruct c as [lat lon]; simpl in *.
  pose proof PI_RGT_0 as HPI.
  set (phi := (90 - lat) * (PI / 180)).
  set (t := lon * (PI / 180)).
  assert (Hphi : 0 < phi < PI).
  { unfold phi. split; [apply Rmult_lt_0_compat; lra|].
    replace PI with (180 * (PI / 180)) at 2 by field.
    apply Rmult_lt_compat_r; lra. }
  assert (Hsin : 0 < sin phi) by (apply sin_gt_0; lra).
  assert (Hproj : project (mkGeo lat lon) r =
                  mkVector3 (r * sin phi * cos t) (r * cos phi) (- (r * sin phi * sin t))).
  { unfold project, getVectorFromLatLon; simpl. fold phi.
    replace ((lon + 180) * (PI / 180)) with (t + PI) by (unfold t; field).
    rewrite neg_sin, neg_cos. f_equal; ring. }
  rewrite Hproj. unfold unproject; simpl.
  assert (Hlen : length (mkVector3 (r * sin phi * cos t) (r * cos phi) (- (r * sin phi * sin t))) = r).
  { unfold length; simpl.
    replace (r * sin phi * cos t * (r * sin phi * cos t) + r * cos phi * (r * cos phi) +
             - (r * sin phi * sin t) * - (r * sin phi * sin t))
      with (r * r * ((sin phi)² * ((sin t)² + (cos t)²) + (cos phi)²)) by (unfold Rsqr; ring).
    rewrite sin2_cos2, Rmult_1_r, sin2_cos2, Rmult_1_r.
    apply sqrt_square. lra. }
  rewrite Hlen.
  replace (r * cos phi / r) with (cos phi) by (field; lra).
  rewrite acos_cos by lra.
  f_equal.
  - unfold phi. field. lra.
  - assert (Ht : - PI <= t <= PI).
    { unfold t. split.
      - replace (- PI) with (-180 * (PI / 180)) by field.
        apply Rmult_le_compat_r; lra.
      - replace PI with (180 * (PI / 180)) at 2 by field.
        apply Rmult_le_compat_r; lra. }
    unfold wrap180. destruct (Rle_dec (lon + 90) 180) as [Hw | Hw].
    + (* no wrap: the angle is t + PI/2 *)
      replace (r * sin phi * cos t) with (r * sin phi * sin (t + PI / 2)).
      2:{ rewrite sin_plus, sin_PI2, cos_PI2. ring. }
      replace (- (r * sin phi * sin t)) with (r * sin phi * cos (t + PI / 2)).
      2:{ rewrite cos_plus, sin_PI2, cos_PI2. ring. }
      rewrite atan2_polar.
      * unfold t. field. lra.
      * apply Rmult_lt_0_compat; lra.
      * assert (t <= PI / 2).
        { unfold t. replace (PI / 2) with (90 * (PI / 180)) by field.
          apply Rmult_le_compat_r; lra. }
        lra.
    + replace (r * sin phi * cos t) with (r * sin phi * sin (t + PI / 2 - 2 * PI)).
      2:{ unfold Rminus. rewrite sin_plus, sin_neg, cos_neg, sin_2PI, cos_2PI.
          rewrite sin_plus, sin_PI2, cos_PI2. ring. }
      replace (- (r * sin phi * sin t)) with (r * sin phi * cos (t + PI / 2 - 2 * PI)).
      2:{ unfold Rminus. rewrite cos_plus, sin_neg, cos_neg, sin_2PI, cos_2PI.
          rewrite cos_plus, sin_PI2, cos_PI2. ring. }
      rewrite atan2_polar.
      * unfold t. field. lra.
      * apply Rmult_lt_0_compat; lra.
      * assert (PI / 2 < t).
        { unfold t. replace (PI / 2) with (90 * (PI / 180)) by field.
          apply Rmult_lt_compat_r; lra. }
        lra.
Qed.

Lemma unproject_scale_invariant_witness :
  0 < 3 /\ 0 < length (mkVector3 0 0 2) /\
  unproject (multiplyScalar 3 (mkVector3 0 0 2)) = unproject (mkVector3 0 0 2).
Proof.
  assert (H3 : 0 < 3) by lra.
  assert (Hp : 0 < length (mkVector3 0 0 2)).
  { unfold length; simpl. apply sqrt_lt_R0. lra. }
  split; [exact H3 | split; [exact Hp |]].
  exact (unproject_scale_invariant 3 (mkVector3 0 0 2) H3 Hp).
Defined.

(** A click on the point of the globe (of scale 2) where the equator meets
    longitude 0: [handleClick] reports longitude 90 and hands on a position
    a quarter turn away from the clicked point. *)
Lemma handleClick_quarter_turn :
  handleClick (mkVector3 2 0 0) = (0, 90, mkVector3 0 0 (- (105 / 100))).
Proof.
  assert (Hu : unproject (mkVector3 2 0 0) = mkGeo 0 90).
  { unfold unproject, length; simpl.
    replace (2 * 2 + 0 * 0 + 0 * 0) with (2 * 2) by ring.
    rewrite sqrt_square by lra. replace (0 / 2) with 0 by field.
    rewrite acos_0, atan2_pos_0 by lra.
    pose proof PI_neq0. f_equal; field; assumption. }
  unfold handleClick. rewrite Hu. simpl. unfold getVectorFromLatLon.
  replace ((90 - 0) * (PI / 180)) with (PI / 2) by field.
  replace ((90 + 180) * (PI / 180)) with (3 * (PI / 2)) by field.
  rewrite sin_PI2, cos_PI2, cos_3PI2, sin_3PI2.
  replace (- (105 / 100 * 1 * 0)) with 0 by ring.
  replace (105 / 100 * 0) with 0 by ring.
  replace (105 / 100 * 1 * -1) with (- (105 / 100)) by ring.
  reflexivity.
Qed.

(** C1, at the coordinate (0, 0) and radius 1: the coordinate is valid and
    far from the poles, [project] sends it to the point (1, 0, 0), and
    [unproject] reads that point back as latitude 0, longitude 90; the round
    trip is not within 1e-6 of the coordinate it started from. *)
Theorem roundtrip_origin_off_by_90 :
  valid (mkGeo 0 0) /\
  project (mkGeo 0 0) 1 = mkVector3 1 0 0 /\
  unproject (project (mkGeo 0 0) 1) = mkGeo 0 90 /\
  ~ within (1 / 1000000) (unproject (project (mkGeo 0 0) 1)) (mkGeo 0 0).
Proof.
  split; [unfold valid; simpl; lra |].
  split; [apply project_origin |].
  split; [apply unproject_project_origin |].
  rewrite unproject_project_origin. unfold within; simpl.
  intros [_ H]. replace (90 - 0) with 90 in H by ring.
  rewrite Rabs_pos_eq in H; lra.
Qed.

Lemma sum_squares_sphere (r phi theta : R) :
  - (r * sin phi * cos theta) * - (r * sin phi * cos theta) +
  r * cos phi * (r * cos phi) +
  r * sin phi * sin theta * (r * sin phi * sin theta) = r * r.
Proof.
  transitivity (r * r * ((sin phi)² * ((sin theta)² + (cos theta)²) + (cos phi)²)).
  - unfold Rsqr. ring.
  - rewrite sin2_cos2, Rmult_1_r, sin2_cos2. ring.
Qed.

Lemma on_sphere (lat lon r : R) :
  0 <= r -> length (getVectorFromLatLon lat lon r) = r.
Proof.
  intros Hr. unfold length, getVectorFromLatLon; simpl.
  rewrite sum_squares_sphere. apply sqrt_square, Hr.
Qed.

(** X1: [getVectorFromLatLon] puts every latitude and longitude on the
    sphere of the radius it is given. *)
Theorem getVectorFromLatLon_on_sphere (lat lon r : R) :
  0 <= r -> length (getVectorFromLatLon lat lon r) = r.
Proof. exact (on_sphere lat lon r). Qed.

Lemma getVectorFromLatLon_on_sphere_witness :
  0 <= 101 / 100 /\
  length (getVectorFromLatLon 10 20 (101 / 100)) = 101 / 100.
Proof.
  assert (H : 0 <= 101 / 100) by lra.
  split; [exact H |].
  exact (getVectorFromLatLon_on_sphere 10 20 (101 / 100) H).
Defined.

Lemma colatitude_range (lat : R) :
  -90 <= lat <= 90 -> 0 <= (90 - lat) * (PI / 180) <= PI.
Proof.
  intros H. pose proof PI_RGT_0. split.
  - apply Rmult_le_pos; lra.
  - replace PI with (180 * (PI / 180)) at 2 by field.
    apply Rmult_le_compat_r; lra.
Qed.

Lemma latitude_back (lat lon r : R) :
  -90 <= lat <= 90 -> 0 < r ->
  latitude (unproject (getVectorFromLatLon lat lon r)) = lat.
Proof.
  intros Hlat Hr. unfold unproject.
  rewrite on_sphere by lra.
  cbn [latitude vy getVectorFromLatLon].
  replace (r * cos ((90 - lat) * (PI / 180)) / r)
    with (cos ((90 - lat) * (PI / 180))) by (field; lra).
  rewrite acos_cos by (apply colatitude_range, Hlat).
  pose proof PI_neq0. field. assumption.
Qed.

(** X2: the latitude survives the round trip through a point of the
    sphere, poles included, whatever the longitude and the radius. *)
Theorem latitude_roundtrip (lat lon r : R) :
  -90 <= lat <= 90 -> 0 < r ->
  latitude (unproject (getVectorFromLatLon lat lon r)) = lat.
Proof. exact (latitude_back lat lon r). Qed.

Lemma latitude_roundtrip_witness :
  -90 <= 90 <= 90 /\ 0 < 2 /\
  latitude (unproject (getVectorFromLatLon 90 33 2)) = 90.
Proof.
  assert (H1 : -90 <= 90 <= 90) by lra.
  assert (H2 : 0 < 2) by lra.
  split; [exact H1 | split; [exact H2 |]].
  exact (latitude_roundtrip 90 33 2 H1 H2).
Defined.

Lemma atan2_range (y x : R) : - PI < atan2 y x <= PI.
Proof.
  pose proof PI_RGT_0 as HPI. unfold atan2.
  destruct (total_order_T 0 x) as [[Hx | Hx] | Hx].
  - pose proof (atan_bound (y / x)). lra.
  - destruct (total_order_T 0 y) as [[Hy | Hy] | Hy]; lra.
  - pose proof (atan_bound (y / x)) as Hb.
    destruct (Rle_dec 0 y) as [Hy | Hy].
    + assert (Hq : y / x <= 0).
      { unfold Rdiv. assert (/ x < 0) by (apply Rinv_lt_0_compat; lra). nra. }
      assert (atan (y / x) <= 0).
      { destruct (Req_dec (y / x) 0) as [-> | Hne].
        - rewrite atan_0. lra.
        - pose proof (atan_increasing (y / x) 0 ltac:(lra)) as Hi.
          rewrite atan_0 in Hi. lra. }
      lra.
    + assert (Hq : 0 < y / x).
      { unfold Rdiv. assert (/ x < 0) by (apply Rinv_lt_0_compat; lra). nra. }
      pose proof (atan_increasing 0 (y / x) Hq) as Hi.
      rewrite atan_0 in Hi. lra.
Qed.

(** X3: whatever point of nonzero length is clicked, [handleClick]
    computes a valid coordinate: a latitude between -90 and 90 and a
    longitude between -180 and 180, both ends included ([Math.atan2] gives
    -PI, hence the longitude -180, for a point of the negative z axis whose
    x is the negative zero). *)
Theorem unproject_in_range (point : Vector3) :
  0 < length point ->
  -90 <= latitude (unproject point) <= 90 /\
  -180 <= longitude (unproject point) <= 180.
Proof.
  intros _. pose proof PI_RGT_0 as HPI. unfold unproject; simpl.
  pose proof (acos_bound (vy point / length point)) as [Ha1 Ha2].
  pose proof (atan2_range (vx point) (vz point)) as [Ht1 Ht2].
  assert (Hdiv : forall a, a * 180 / PI = a * (180 / PI)) by (intros; field; lra).
  rewrite !Hdiv.
  assert (Hk : 0 < 180 / PI) by (apply Rdiv_lt_0_compat; lra).
  assert (HP : PI * (180 / PI) = 180) by (field; lra).
  repeat split; nra.
Qed.

Lemma unproject_in_range_witness :
  0 < length (mkVector3 0 0 2) /\
  -90 <= latitude (unproject (mkVector3 0 0 2)) <= 90.
Proof.
  assert (Hp : 0 < length (mkVector3 0 0 2)).
  { unfold length; simpl. apply sqrt_lt_R0. lra. }
  split; [exact Hp |].
  exact (proj1 (unproject_in_range (mkVector3 0 0 2) Hp)).
Defined.

(** X5: turning the longitude by a full circle gives the same point; in
    particular the longitudes -180 and 180 are one meridian. *)
Theorem getVectorFromLatLon_full_turn (lat lon r : R) :
  getVectorFromLatLon lat (lon + 360) r = getVectorFromLatLon lat lon r.
Proof.
  unfold getVectorFromLatLon.
  replace ((lon + 360 + 180) * (PI / 180))
    with ((lon + 180) * (PI / 180) + 2 * PI) by field.
  rewrite sin_plus, cos_plus, sin_2PI, cos_2PI.
  f_equal; ring.
Qed.

Lemma hypot_factor (a b : R) :
  b <> 0 ->
  sqrt (a * a + b * b) = Rabs b * sqrt (1 + (a / b)²).
Proof.
  intros Hb.
  replace (a * a + b * b) with (b² * (1 + (a / b)²))
    by (unfold Rsqr; field; assumption).
  rewrite sqrt_mult.
  - rewrite sqrt_Rsqr_abs. reflexivity.
  - apply Rle_0_sqr.
  - pose proof (Rle_0_sqr (a / b)). lra.
Qed.

Lemma root_one_plus_square_pos (t : R) : 0 < sqrt (1 + t²).
Proof. apply sqrt_lt_R0. pose proof (Rle_0_sqr t). lra. Qed.

(** [atan2 a b] is the angle of the point whose sine part is [a] and whose
    cosine part is [b]. *)
Lemma atan2_components (a b : R) :
  sqrt (a * a + b * b) * sin (atan2 a b) = a /\
  sqrt (a * a + b * b) * cos (atan2 a b) = b.
Proof.
  unfold atan2.
  destruct (total_order_T 0 b) as [[Hb | Hb] | Hb].
  - rewrite hypot_factor by lra. rewrite Rabs_pos_eq by lra.
    rewrite sin_atan, cos_atan.
    pose proof (root_one_plus_square_pos (a / b)).
    split; field; lra.
  - subst b. replace (a * a + 0 * 0) with (a²) by (unfold Rsqr; ring).
    rewrite sqrt_Rsqr_abs.
    destruct (total_order_T 0 a) as [[Ha | Ha] | Ha].
    + rewrite sin_PI2, cos_PI2, Rabs_pos_eq by lra. split; ring.
    + subst a. rewrite Rabs_R0. split; ring.
    + rewrite sin_neg, cos_neg, sin_PI2, cos_PI2, Rabs_left by lra. split; ring.
  - rewrite hypot_factor by lra. rewrite Rabs_left by lra.
    pose proof (root_one_plus_square_pos (a / b)).
    destruct (Rle_dec 0 a) as [Ha | Ha].
    + rewrite neg_sin, neg_cos, sin_atan, cos_atan. split; field; lra.
    + unfold Rminus. rewrite sin_plus, cos_plus, sin_neg, cos_neg, sin_PI, cos_PI.
      rewrite sin_atan, cos_atan. split; field; lra.
Qed.

Lemma height_ratio_range (p : Vector3) :
  0 < length p -> -1 <= vy p / length p <= 1.
Proof.
  intros Hp.
  assert (Hsq : length p * length p = vx p * vx p + vy p * vy p + vz p * vz p).
  { unfold length. apply sqrt_sqrt. nra. }
  split.
  - apply Rmult_le_reg_r with (length p); [assumption |].
    unfold Rdiv. rewrite Rmult_assoc, Rinv_l by lra. nra.
  - apply Rmult_le_reg_r with (length p); [assumption |].
    unfold Rdiv. rewrite Rmult_assoc, Rinv_l by lra. nra.
Qed.

Lemma sin_colatitude (p : Vector3) :
  0 < length p ->
  length p * sin (acos (vy p / length p)) = sqrt (vx p * vx p + vz p * vz p).
Proof.
  intros Hp.
  assert (Hsq : length p * length p = vx p * vx p + vy p * vy p + vz p * vz p).
  { unfold length. apply sqrt_sqrt. nra. }
  rewrite sin_acos by (apply height_ratio_range, Hp).
  rewrite <- (sqrt_square (length p)) at 1 by lra.
  rewrite <- sqrt_mult.
  - f_equal. transitivity (length p * length p - vy p * vy p).
    + unfold Rsqr. field. lra.
    + rewrite Hsq. ring.
  - nra.
  - pose proof (height_ratio_range p Hp) as [H1 H2].
    unfold Rsqr. nra.
Qed.

(** X4: the position [handleClick] hands on, for a clicked point [(x, y, z)]
    of nonzero length, is [(z, y, -x)] scaled to the length 1.05: the
    clicked direction turned by a quarter turn about the vertical axis,
    not the clicked direction itself. *)
Theorem handleClick_position (point : Vector3) :
  0 < length point ->
  snd (handleClick point) =
  multiplyScalar (105 / 100 / length point)
    (mkVector3 (vz point) (vy point) (- vx point)).
Proof.
  intros Hp. pose proof PI_RGT_0 as HPI.
  unfold handleClick, unproject, getVectorFromLatLon, multiplyScalar.
  cbn [snd latitude longitude vx vy vz].
  pose proof (sin_colatitude point Hp) as Hs.
  destruct (atan2_components (vx point) (vz point)) as [Hx Hz].
  assert (Hy : cos (acos (vy point / length point)) = vy point / length point).
  { apply cos_acos, height_ratio_range, Hp. }
  remember (acos (vy point / length point)) as phi eqn:Hphi.
  remember (atan2 (vx point) (vz point)) as theta eqn:Htheta.
  replace ((90 - (90 - phi * 180 / PI)) * (PI / 180)) with phi by (field; lra).
  replace ((theta * 180 / PI + 180) * (PI / 180)) with (theta + PI) by (field; lra).
  rewrite neg_sin, neg_cos.
  assert (Hsin : sin phi = sqrt (vx point * vx point + vz point * vz point) / length point).
  { rewrite <- Hs. field. lra. }
  remember (sqrt (vx point * vx point + vz point * vz point)) as s eqn:Hs'.
  f_equal.
  - rewrite Hsin, <- Hz. field. lra.
  - rewrite Hy. field. lra.
  - rewrite Hsin, <- Hx. field. lra.
Qed.

Lemma handleClick_position_witness :
  0 < length (mkVector3 0 0 2) /\
  snd (handleClick (mkVector3 0 0 2)) =
  multiplyScalar (105 / 100 / length (mkVector3 0 0 2)) (mkVector3 2 0 (- 0)).
Proof.
  assert (Hp : 0 < length (mkVector3 0 0 2)).
  { unfold length; simpl. apply sqrt_lt_R0. lra. }
  split; [exact Hp |].
  exact (handleClick_position (mkVector3 0 0 2) Hp).
Defined.

(** X6: for a coordinate off the poles, with its longitude between -180
    and 180, the round trip through the sphere gives the latitude back and
    the longitude plus 90 degrees, wrapped into (-180, 180]. *)
Theorem longitude_comes_back_shifted (c : GeoCoordinate) (r : R) :
  -90 < latitude c < 90 -> -180 <= longitude c <= 180 -> 0 < r ->
  unproject (project c r) = mkGeo (latitude c) (wrap180 (longitude c + 90)).
Proof. exact (unproject_project_shifted c r). Qed.

Lemma longitude_comes_back_shifted_witness :
  -90 < 10 < 90 /\ -180 <= 170 <= 180 /\ 0 < 2 /\
  unproject (project (mkGeo 10 170) 2) = mkGeo 10 (wrap180 (170 + 90)).
Proof.
  assert (H1 : -90 < 10 < 90) by lra.
  assert (H2 : -180 <= 170 <= 180) by lra.
  assert (H3 : 0 < 2) by lra.
  split; [exact H1 | split; [exact H2 | split; [exact H3 |]]].
  exact (longitude_comes_back_shifted (mkGeo 10 170) 2 H1 H2 H3).
Defined.

End GeoProps.

(** ** Weather descriptions *)

Module WeatherProps.
Import Weather.
Local Open Scope Z_scope.
Local Open Scope string_scope.

Example description_fog : getWeatherDescription (number 45) = "Fog".
Proof. reflexivity. Qed.

Example description_undefined :
  getWeatherDescription undefined = "Unknown weather".
Proof. reflexivity. Qed.

Example description_negative :
  getWeatherDescription (number (-1)) = "Unknown weather".
Proof. reflexivity. Qed.

Lemma codes_unlisted (n : Z) : n ∉ listed -> codes !! n = None.
Proof.
  unfold listed. rewrite !not_elem_of_cons. intros H.
  unfold codes. rewrite !lookup_insert_ne by (intros <-; intuition congruence).
  apply lookup_empty.
Qed.

Lemma description_unlisted (code : code_arg) :
  (forall n, code = number n -> n ∉ listed) ->
  getWeatherDescription code = "Unknown weather".
Proof.
  intros H. destruct code as [|n]; [reflexivity|].
  unfold getWeatherDescription, property.
  rewrite codes_unlisted by (apply H; reflexivity). reflexivity.
Qed.

(** C10: [getWeatherDescription] is a function from codes to strings; on
    each of the 16 codes of its table it returns the description given
    there, on every other argument, [undefined] included, it returns
    "Unknown weather", and the string it returns is never empty. *)
Theorem getWeatherDescription_total :
  Forall (fun kv : Z * string => getWeatherDescription (number kv.1) = kv.2)
    [(0, "Clear sky"); (1, "Mainly clear"); (2, "Partly cloudy");
     (3, "Overcast"); (45, "Fog"); (48, "Rime fog");
     (51, "Light drizzle"); (53, "Moderate drizzle"); (55, "Dense drizzle");
     (61, "Slight rain"); (63, "Moderate rain"); (65, "Heavy rain");
     (80, "Slight rain showers"); (81, "Moderate rain showers");
     (82, "Violent rain showers"); (95, "Thunderstorm")] /\
  (forall code : code_arg,
     (forall n, code = number n ->
        n ∉ [0; 1; 2; 3; 45; 48; 51; 53; 55; 61; 63; 65; 80; 81; 82; 95]) ->
     getWeatherDescription code = "Unknown weather") /\
  (forall code : code_arg, getWeatherDescription code <> "").
Proof.
  split; [| split].
  - repeat constructor.
  - exact description_unlisted.
  - intros code. destruct code as [|n]; [discriminate|].
    destruct (decide (n ∈ listed)) as [Hin | Hout].
    + unfold listed in Hin. rewrite !elem_of_cons in Hin.
      repeat (destruct Hin as [-> | Hin]; [discriminate|]).
      now apply elem_of_nil in Hin.
    + rewrite description_unlisted; [discriminate|].
      intros m [= <-]. exact Hout.
Qed.

Lemma description_nonempty (code : code_arg) :
  getWeatherDescription code <> "".
Proof.
  destruct code as [|n]; [discriminate|].
  destruct (decide (n ∈ listed)) as [Hin | Hout].
  - unfold listed in Hin. rewrite !elem_of_cons in Hin.
    repeat (destruct Hin as [-> | Hin]; [discriminate|]).
    now apply elem_of_nil in Hin.
  - rewrite description_unlisted; [discriminate|].
    intros m [= <-]. exact Hout.
Qed.

End WeatherProps.

(** ** The ISS poller *)

Module PollerProps.
Import Poller.
Local Open Scope string_scope.
Local Open Scope nat_scope.

Section Tracker.
Context {Num : Type} (zero : Num).

Lemma resume_returns (k : stage) (d : @delivery Num) (s : @Tracker Num) (e : string) :
  (resume k d s).2 <> finish (throw e).
Proof.
  destruct k, d as [[u | r] | [[[la lo] | ] | r]]; simpl; discriminate.
Qed.

Lemma intervalMs_pos : 0 < intervalMs.
Proof. unfold intervalMs. lia. Qed.

Local Opaque intervalMs.

Lemma inv_mount t0 : inv t0 0 (mount zero t0).
Proof.
  pose proof intervalMs_pos.
  assert (Hq : 0 / intervalMs = 0) by apply Nat.Div0.div_0_l.
  split; cbn [mount now interval calls tasks].
  - lia.
  - rewrite Hq. lia.
  - unfold schedule. rewrite Hq. reflexivity.
  - intros id k Hk. rewrite lookup_empty in Hk. discriminate.
Qed.

Lemma div_succ_cases (e m : nat) :
  0 < m ->
  (S (e / m) * m <= S e /\ S e / m = S (e / m)) \/
  (S e < S (e / m) * m /\ S e / m = e / m).
Proof.
  intros Hm.
  pose proof (Nat.div_mod_eq e m) as Hdm.
  pose proof (Nat.mod_upper_bound e m ltac:(lia)) as Hr.
  destruct (decide (S (e mod m) = m)) as [Heq | Hne].
  - left. split; [nia|].
    symmetry. apply (Nat.div_unique _ _ _ 0); nia.
  - right. split; [nia|].
    symmetry. apply (Nat.div_unique _ _ _ (S (e mod m))); nia.
Qed.

Lemma inv_elapse t0 e (s : @Tracker Num) : inv t0 e s -> inv t0 (S e) (elapse s).
Proof.
  intros [Hn Hi Hc Ht]. pose proof intervalMs_pos as Hm.
  unfold elapse; simpl.
  destruct (div_succ_cases e intervalMs Hm) as [[Hle Hq] | [Hlt Hq]].
  - rewrite (proj2 (Nat.leb_le _ _)) by (rewrite Hi, Hn; nia).
    split; simpl.
    + nia.
    + rewrite Hi, Hq. nia.
    + rewrite Hc. unfold schedule. rewrite Hq, seq_S, map_app, rev_app_distr.
      simpl. f_equal.
      assert (S (e / intervalMs) * intervalMs = S e) as Hex; [|nia].
      pose proof (Nat.div_mod_eq e intervalMs).
      pose proof (Nat.mod_upper_bound e intervalMs ltac:(nia)). nia.
    + intros id k Hk. destruct (decide (List.length (calls s) = id)) as [<- | Hne].
      * nia.
      * rewrite lookup_insert_ne in Hk by assumption.
        apply Ht in Hk. nia.
  - rewrite (proj2 (Nat.leb_gt _ _)) by (rewrite Hi, Hn; nia).
    split; simpl.
    + nia.
    + rewrite Hi, Hq. reflexivity.
    + rewrite Hc. unfold schedule. rewrite Hq. reflexivity.
    + exact Ht.
Qed.

Lemma settle_frame id d (s : @Tracker Num) :
  now (settle id d s) = now s /\ interval (settle id d s) = interval s /\
  calls (settle id d s) = calls s /\
  (forall j k, tasks (settle id d s) !! j = Some k -> is_Some (tasks s !! j)).
Proof.
  unfold settle. destruct (tasks s !! id) as [k0 |] eqn:Hid.
  2:{ repeat split; eauto. }
  destruct k0, d as [[u | r] | [[[la lo] | ] | r]]; simpl;
    (repeat split; [ intros j k Hj;
      destruct (decide (id = j)) as [<- | Hne];
      [ eauto | first [ rewrite lookup_insert_ne in Hj by assumption
                      | rewrite lookup_delete_ne in Hj by assumption ]; eauto ] ]).
Qed.

Lemma inv_settle t0 e id d (s : @Tracker Num) : inv t0 e s -> inv t0 e (settle id d s).
Proof.
  intros [Hn Hi Hc Ht].
  destruct (settle_frame id d s) as (Hn' & Hi' & Hc' & Ht').
  split.
  - congruence.
  - congruence.
  - congruence.
  - intros j k Hj. rewrite Hc'. destruct (Ht' j k Hj) as [k' Hk']. eauto.
Qed.

Lemma inv_run t0 evs : forall e (s : @Tracker Num),
  inv t0 e s -> inv t0 (e + elapsed evs) (run s evs).
Proof.
  induction evs as [| [| id d] evs IH]; intros e s H; simpl.
  - rewrite Nat.add_0_r. exact H.
  - replace (e + S (elapsed evs)) with (S e + elapsed evs) by lia.
    apply IH, inv_elapse, H.
  - apply IH, inv_settle, H.
Qed.

Lemma inv_reachable t0 evs :
  inv t0 (elapsed evs) (run (mount zero t0) evs).
Proof. apply (inv_run t0 evs 0), inv_mount. Qed.

(** C5, as the code has it: whatever happens to the fetches, the calls of
    [fetchIssPosition] made by the time a list of events is over are those
    at [t0 + intervalMs], [t0 + 2 * intervalMs], ... up to the time
    elapsed: one per interval, the first a full interval after the mount,
    and none at the mount itself; the outcome of a fetch changes neither
    their number nor their times. *)
Theorem polling_schedule (t0 : nat) (evs : list (@event Num)) :
  calls (run (mount zero t0) evs) =
  rev (map (fun k => t0 + k * intervalMs)
           (seq 1 (elapsed evs / intervalMs))).
Proof. apply (inv_calls _ _ _ (inv_reachable t0 evs)). Qed.

(** C2, as the code has it: in every reachable state a tick of the timer
    starts a fetch, whether or not earlier fetches are still in flight;
    the number of fetches in flight grows by one, and no pending fetch is
    dropped or replaced. *)
Theorem tick_starts_fetch (t0 : nat) (evs : list (@event Num)) :
  interval (run (mount zero t0) evs) = S (now (run (mount zero t0) evs)) ->
  in_flight (step (run (mount zero t0) evs) Elapse) =
    S (in_flight (run (mount zero t0) evs)) /\
  calls (step (run (mount zero t0) evs) Elapse) =
    S (now (run (mount zero t0) evs)) :: calls (run (mount zero t0) evs) /\
  (forall id k, tasks (run (mount zero t0) evs) !! id = Some k ->
     tasks (step (run (mount zero t0) evs) Elapse) !! id = Some k).
Proof.
  pose proof (inv_reachable t0 evs) as [_ _ _ Ht].
  set (s := run (mount zero t0) evs) in *. intros Hdue.
  assert (Hfresh : tasks s !! List.length (calls s) = None).
  { destruct (tasks s !! List.length (calls s)) as [k |] eqn:Hk; [|reflexivity].
    apply Ht in Hk. lia. }
  unfold step, elapse, in_flight; cbn [now interval].
  rewrite (proj2 (Nat.leb_le _ _)) by lia.
  cbn [fetchIssPosition tasks calls now].
  split; [| split].
  - apply map_size_insert_None, Hfresh.
  - reflexivity.
  - intros id k Hk. rewrite lookup_insert_ne; [exact Hk|].
    intros <-. congruence.
Qed.

(** C6: when an attempt in flight fails (the request or the parsing of its
    body is rejected, or the body is [null]), [issPosition] is afterwards
    what it was, the failure is written to the console, the call has
    returned normally and the timer is untouched; no resumption of
    [fetchIssPosition] ever ends in a throw. *)
Theorem failed_fetch_keeps_position (s : @Tracker Num) (id : nat)
    (l : lookup (option (Num * Num))) (e : string) :
  tasks s !! id = Some awaitFetch ->
  fails l = Some e ->
  issPosition (run s (map (Settle id) (deliveries l))) = issPosition s /\
  console (run s (map (Settle id) (deliveries l))) =
    (console s ++ [("Failed to fetch ISS position:", e)])%list /\
  tasks (run s (map (Settle id) (deliveries l))) = delete id (tasks s) /\
  interval (run s (map (Settle id) (deliveries l))) = interval s /\
  (forall k d (s0 : @Tracker Num) err, (resume k d s0).2 <> finish (throw err)).
Proof.
  intros Hid Hl.
  assert (Hstep2 : forall r, settle id (response (fulfilled r)) s =
                             set_tasks (<[id := awaitJson]> (tasks s)) s).
  { intros r. unfold settle. rewrite Hid. reflexivity. }
  destruct l as [e' | e' | [[la lo] |]]; simpl in Hl; inversion Hl; subst;
    cbn [deliveries map run fold_left step].
  - unfold settle. rewrite Hid. cbn.
    repeat split; auto using resume_returns.
  - rewrite Hstep2. unfold settle; cbn. rewrite lookup_insert_eq. cbn.
    rewrite delete_insert_eq.
    repeat split; auto using resume_returns.
  - rewrite Hstep2. unfold settle; cbn. rewrite lookup_insert_eq. cbn.
    rewrite delete_insert_eq.
    repeat split; auto using resume_returns.
Qed.

Lemma fetch_success (s : @Tracker Num) (id : nat) (la lo : Num) :
  tasks s !! id = Some awaitFetch ->
  run s (map (Settle id) (deliveries (delivers (Some (la, lo))))) =
  set_tasks (delete id (tasks s)) (setIssPosition (mkPos la lo) s).
Proof.
  intros Hid. cbn [deliveries map run fold_left step].
  unfold settle at 2. rewrite Hid. cbn.
  unfold settle. cbn. rewrite lookup_insert_eq. cbn.
  rewrite delete_insert_eq. reflexivity.
Qed.

(** X14: when an attempt in flight delivers a body with coordinates,
    [issPosition] becomes the latitude and longitude of that body, nothing
    is written to the console, and the call is over. *)
Theorem successful_fetch_sets_position (s : @Tracker Num) (id : nat)
    (la lo : Num) :
  tasks s !! id = Some awaitFetch ->
  issPosition (run s (map (Settle id) (deliveries (delivers (Some (la, lo)))))) =
    mkPos la lo /\
  console (run s (map (Settle id) (deliveries (delivers (Some (la, lo)))))) =
    console s /\
  tasks (run s (map (Settle id) (deliveries (delivers (Some (la, lo)))))) =
    delete id (tasks s).
Proof.
  intros Hid. rewrite (fetch_success s id la lo Hid). repeat split.
Qed.

(** X15: of two fetches in flight, the one that settles last decides the
    position shown, whichever of them was started first: a slow earlier
    fetch overwrites the result of a later one. *)
Theorem last_settled_fetch_wins (s : @Tracker Num) (i j : nat)
    (a b : Num * Num) :
  i <> j ->
  tasks s !! i = Some awaitFetch ->
  tasks s !! j = Some awaitFetch ->
  issPosition
    (run s (map (Settle i) (deliveries (delivers (Some a))) ++
            map (Settle j) (deliveries (delivers (Some b))))) =
  mkPos (fst b) (snd b).
Proof.
  intros Hne Hi Hj. destruct a as [la lo], b as [la' lo'].
  unfold run. rewrite fold_left_app.
  fold (run s (map (Settle i) (deliveries (delivers (Some (la, lo)))))).
  rewrite (fetch_success s i la lo Hi).
  match goal with |- issPosition (fold_left step ?l ?s0) = _ =>
    change (fold_left step l s0) with (run s0 l) end.
  rewrite fetch_success.
  - reflexivity.
  - cbn [set_tasks tasks setIssPosition].
    rewrite lookup_delete_ne by assumption. exact Hj.
Qed.

Lemma size_below (m : gmap nat stage) (n : nat) :
  (forall id k, m !! id = Some k -> id < n) -> size m <= n.
Proof.
  intros H.
  rewrite <- (size_dom (D := gset nat) m).
  rewrite <- (size_set_seq (C := gset nat) 0 n).
  apply subseteq_size. intros id Hid.
  apply elem_of_dom in Hid as [k Hk].
  apply elem_of_set_seq. specialize (H id k Hk). lia.
Qed.

(** X16: the fetches in flight are never more than the ticks that have
    fired, one per full interval elapsed since the mount. *)
Theorem in_flight_bounded_by_ticks (t0 : nat) (evs : list (@event Num)) :
  in_flight (run (mount zero t0) evs) <= elapsed evs / intervalMs.
Proof.
  destruct (inv_reachable t0 evs) as [_ _ Hc Ht].
  unfold in_flight.
  replace (elapsed evs / intervalMs)
    with (List.length (calls (run (mount zero t0) evs))).
  - apply size_below, Ht.
  - rewrite Hc. unfold schedule.
    rewrite length_rev, length_map, length_seq. reflexivity.
Qed.

(** An event other than the delivery of a body that is not [null] leaves
    the position as it is. *)
Lemma step_keeps_position (s : @Tracker Num) (e : @event Num) :
  match e with
  | Settle _ (body (fulfilled (Some _))) => False
  | _ => True
  end ->
  issPosition (step s e) = issPosition s.
Proof.
  destruct e as [| id d]; intros He.
  - unfold step, elapse. cbn [now interval].
    destruct (interval s <=? S (now s))%nat; reflexivity.
  - unfold step, settle. destruct (tasks s !! id) as [k |]; [| reflexivity].
    destruct k, d as [[u | r] | [[[la lo] |] | r]]; try contradiction; reflexivity.
Qed.

(** X17: only the delivery of a body that is not [null] changes the
    position shown (it then takes the [latitude] and [longitude] read from
    that body, whatever they are, [undefined] included): ticks of the
    timer, responses, failures and [null] bodies leave [issPosition] as it
    is. *)
Theorem position_changes_only_on_body (s : @Tracker Num)
    (evs : list (@event Num)) :
  Forall (fun e => match e with
                   | Settle _ (body (fulfilled (Some _))) => False
                   | _ => True
                   end) evs ->
  issPosition (run s evs) = issPosition s.
Proof.
  intros H. revert s. induction H as [| e evs He _ IH]; intros s; [reflexivity |].
  cbn [run fold_left]. fold (run (step s e) evs).
  rewrite IH. apply step_keeps_position, He.
Qed.

End Tracker.

Local Transparent intervalMs.

(** C2 fails: 4000 ms after the mount, with no fetch settled, the tick at
    4000 ms has started a second fetch while the first is pending. *)
Lemma two_fetches_in_flight :
  in_flight (run (mount 0%Z 0) (repeat Elapse 3999)) = 1 /\
  tasks (run (mount 0%Z 0) (repeat Elapse 3999)) !! 0 = Some awaitFetch /\
  in_flight (step (run (mount 0%Z 0) (repeat Elapse 3999)) Elapse) = 2 /\
  ~ in_flight (run (mount 0%Z 0) (repeat Elapse 4000)) <= 1.
Proof.
  split; [vm_compute; reflexivity |].
  split; [vm_compute; reflexivity |].
  split; [vm_compute; reflexivity |].
  replace (in_flight (run (mount 0%Z 0) (repeat Elapse 4000))) with 2
    by (vm_compute; reflexivity).
  lia.
Qed.

Lemma tick_starts_fetch_witness :
  interval (run (mount 0%Z 0) (repeat Elapse 3999)) =
    S (now (run (mount 0%Z 0) (repeat Elapse 3999))) /\
  in_flight (step (run (mount 0%Z 0) (repeat Elapse 3999)) Elapse) =
    S (in_flight (run (mount 0%Z 0) (repeat Elapse 3999))).
Proof.
  assert (H : interval (run (mount 0%Z 0) (repeat Elapse 3999)) =
              S (now (run (mount 0%Z 0) (repeat Elapse 3999)))).
  { vm_compute. reflexivity. }
  split; [exact H |].
  exact (proj1 (tick_starts_fetch 0%Z 0 (repeat Elapse 3999) H)).
Defined.

(** C5 fails: the mount starts no fetch; none has been attempted 1999 ms
    later, and the first one is made at 2000 ms. *)
Lemma no_fetch_on_mount :
  calls (mount 0%Z 0) = [] /\
  in_flight (mount 0%Z 0) = 0 /\
  calls (run (mount 0%Z 0) (repeat Elapse 1999)) = [] /\
  calls (run (mount 0%Z 0) (repeat Elapse 2000)) = [2000] /\
  ~ In 0 (calls (run (mount 0%Z 0) (repeat Elapse 2000))).
Proof.
  split; [reflexivity |].
  split; [reflexivity |].
  split; [vm_compute; reflexivity |].
  assert (H : calls (run (mount 0%Z 0) (repeat Elapse 2000)) = [2000])
    by (vm_compute; reflexivity).
  split; [exact H |].
  rewrite H. simpl. intros [E | []]. discriminate.
Qed.

Lemma failed_fetch_keeps_position_witness :
  tasks (run (mount 0%Z 0) (repeat Elapse 2000)) !! 0 = Some awaitFetch /\
  fails (Num := Z) (fetchFails "NetworkError") = Some "NetworkError" /\
  issPosition (run (run (mount 0%Z 0) (repeat Elapse 2000))
                 (map (Settle 0) (deliveries (fetchFails "NetworkError")))) =
    issPosition (run (mount 0%Z 0) (repeat Elapse 2000)).
Proof.
  assert (H : tasks (run (mount 0%Z 0) (repeat Elapse 2000)) !! 0 =
              Some awaitFetch).
  { vm_compute. reflexivity. }
  split; [exact H | split; [reflexivity |]].
  exact (proj1 (failed_fetch_keeps_position
                  (run (mount 0%Z 0) (repeat Elapse 2000)) 0
                  (fetchFails "NetworkError") "NetworkError" H eq_refl)).
Defined.

Lemma successful_fetch_sets_position_witness :
  tasks (run (mount 0%Z 0) (repeat Elapse 2000)) !! 0 = Some awaitFetch /\
  issPosition (run (run (mount 0%Z 0) (repeat Elapse 2000))
                 (map (Settle 0) (deliveries (delivers (Some (51, -12)%Z))))) =
    mkPos 51%Z (-12)%Z.
Proof.
  assert (H : tasks (run (mount 0%Z 0) (repeat Elapse 2000)) !! 0 =
              Some awaitFetch).
  { vm_compute. reflexivity. }
  split; [exact H |].
  exact (proj1 (successful_fetch_sets_position
                  (run (mount 0%Z 0) (repeat Elapse 2000)) 0 51%Z (-12)%Z H)).
Defined.

Lemma last_settled_fetch_wins_witness :
  1 <> 0 /\
  tasks (run (mount 0%Z 0) (repeat Elapse 4000)) !! 1 = Some awaitFetch /\
  tasks (run (mount 0%Z 0) (repeat Elapse 4000)) !! 0 = Some awaitFetch /\
  issPosition
    (run (run (mount 0%Z 0) (repeat Elapse 4000))
       (map (Settle 1) (deliveries (delivers (Some (2, 2)%Z))) ++
        map (Settle 0) (deliveries (delivers (Some (1, 1)%Z))))) =
  mkPos 1%Z 1%Z.
Proof.
  assert (H0 : 1 <> 0) by lia.
  assert (H1 : tasks (run (mount 0%Z 0) (repeat Elapse 4000)) !! 1 =
               Some awaitFetch) by (vm_compute; reflexivity).
  assert (H2 : tasks (run (mount 0%Z 0) (repeat Elapse 4000)) !! 0 =
               Some awaitFetch) by (vm_compute; reflexivity).
  split; [exact H0 | split; [exact H1 | split; [exact H2 |]]].
  exact (last_settled_fetch_wins
           (run (mount 0%Z 0) (repeat Elapse 4000)) 1 0 (2, 2)%Z (1, 1)%Z
           H0 H1 H2).
Defined.

Lemma position_changes_only_on_body_witness :
  tasks (run (mount 0%Z 0) (repeat Elapse 2000)) !! 0 = Some awaitFetch /\
  Forall (fun e : @event Z =>
            match e with
            | Settle _ (body (fulfilled (Some _))) => False
            | _ => True
            end)
    [Settle 0 (response (fulfilled tt)); Settle 0 (body (fulfilled None));
     Elapse] /\
  issPosition (run (run (mount 0%Z 0) (repeat Elapse 2000))
                 [Settle 0 (response (fulfilled tt));
                  Settle 0 (body (fulfilled None)); Elapse]) =
    issPosition (run (mount 0%Z 0) (repeat Elapse 2000)) /\
  console (run (run (mount 0%Z 0) (repeat Elapse 2000))
             [Settle 0 (response (fulfilled tt));
              Settle 0 (body (fulfilled None)); Elapse]) =
    [("Failed to fetch ISS position:", "TypeError")].
Proof.
  assert (H0 : tasks (run (mount 0%Z 0) (repeat Elapse 2000)) !! 0 =
               Some awaitFetch) by (vm_compute; reflexivity).
  assert (H : Forall (fun e : @event Z =>
                        match e with
                        | Settle _ (body (fulfilled (Some _))) => False
                        | _ => True
                        end)
                [Settle 0 (response (fulfilled tt));
                 Settle 0 (body (fulfilled None)); Elapse])
    by (repeat constructor).
  split; [exact H0 |].
  split; [exact H |].
  split; [| vm_compute; reflexivity].
  exact (position_changes_only_on_body
           (run (mount 0%Z 0) (repeat Elapse 2000)) _ H).
Defined.

End PollerProps.

(** ** The click coordinator *)

Module CoordinatorProps.
Import Coordinator.
Local Open Scope string_scope.

Section App.
Context {Coord Weather Position : Type}.

Local Abbreviation World := (@World Weather Position).
Local Abbreviation App := (@App Weather Position).
Local Abbreviation event := (@event Coord Weather Position).
Local Abbreviation delivery := (@delivery Weather).

Lemma handler_returns (k : stage) (d : delivery) (w : World) (e : string) :
  (resume k d w).2 <> finish (throw e).
Proof.
  destruct k, d as [[u | r] | [b | r] | [[g |] | r]]; simpl; discriminate.
Qed.

Lemma settle_at (w : World) id k (d : delivery) :
  tasks w !! id = Some k ->
  settle id d w =
  match resume k d w with
  | (w', suspend k') => set_tasks (<[id := k']> (tasks w')) w'
  | (w', finish _) => set_tasks (delete id (tasks w')) w'
  end.
Proof. intros H. unfold settle. rewrite H. reflexivity. Qed.

Lemma applyGeoData_country (g : GeoData) (a : App) :
  applyGeoData g a = setClickedInfo (withCountryName (country_of g)) a.
Proof.
  unfold applyGeoData, country_of.
  destruct (address g) as [[[c |]] |]; simpl; try reflexivity.
  destruct (truthy c); reflexivity.
Qed.

Lemma geo_done_country (gl : lookup (option GeoData)) (a : App) :
  geo_done gl a = setClickedInfo (withCountryName (country_result gl)) a.
Proof.
  destruct gl as [e | e | [g |]]; simpl; try reflexivity.
  apply applyGeoData_country.
Qed.

Lemma no_country_result (gl : lookup (option GeoData)) :
  no_country gl = true -> country_result gl = "Unknown Country".
Proof.
  destruct gl as [e | e | [g |]]; simpl; try reflexivity.
  unfold has_country, country_of.
  destruct (address g) as [[[c |]] |]; simpl; try reflexivity.
  destruct (truthy c); simpl; [discriminate | reflexivity].
Qed.

(** No settlement touches [position]. *)
Lemma settle_position (w : World) id (d : delivery) :
  position (clickedInfo (app (settle id d w))) = position (clickedInfo (app w)).
Proof.
  unfold settle. destruct (tasks w !! id) as [k |]; [|reflexivity].
  destruct k, d as [[u | r] | [b | r] | [[g |] | r]]; simpl; try reflexivity.
  rewrite applyGeoData_country. reflexivity.
Qed.

Lemma run_settles_position (evs : list event) : forall w : World,
  Forall is_settle evs ->
  position (clickedInfo (app (run w evs))) = position (clickedInfo (app w)).
Proof.
  induction evs as [| ev evs IH]; intros w H; [reflexivity|].
  inversion H as [| ? ? Hev Hevs]; subst.
  destruct ev as [lat lon pos | id d |]; simpl in Hev; try contradiction.
  simpl. rewrite IH by assumption. apply settle_position.
Qed.

Lemma panel_needs_position (a : App) :
  position (clickedInfo a) = None -> panel a = false.
Proof. unfold panel. intros ->. destruct (weather a); reflexivity. Qed.

(** Resuming the call whose stage is known: the innermost [settle] of the
    goal is replaced by what [resume] does at that stage. *)
Ltac settle_innermost :=
  match goal with
  | |- context [settle ?i ?d ?W] =>
      lazymatch W with
      | context [settle _ _ _] => fail
      | _ =>
          erewrite (settle_at W i _ d);
          [| first [ eassumption
                   | cbn [tasks set_tasks on_app console_error handleGlobeClick];
                     apply lookup_insert_eq ] ];
          cbn [resume first_try first_catch then_second second_try
               second_catch tasks set_tasks on_app console_error app]
      end
  end.

(** One call of [handleGlobeClick], from its first [await] to its end, with
    nothing else happening in between. *)
Lemma run_call (w : World) id (wl : lookup (option Weather))
    (gl : lookup (option GeoData)) :
  tasks w !! id = Some awaitWeatherFetch ->
  app (settle_call (Coord := Coord) id wl gl w) =
    geo_done gl (weather_done wl (app w)) /\
  tasks (settle_call (Coord := Coord) id wl gl w) = delete id (tasks w).
Proof.
  intros Hid. unfold settle_call.
  destruct wl as [e | e | b], gl as [e' | e' | [g |]];
    cbn [weather_deliveries geo_deliveries Datatypes.app map run fold_left step];
    repeat settle_innermost;
    rewrite ?insert_insert_eq, ?delete_insert_eq; split; reflexivity.
Qed.

Lemma call_results (w : World) id (wl : lookup (option Weather))
    (gl : lookup (option GeoData)) :
  tasks w !! id = Some awaitWeatherFetch ->
  weather (app (settle_call (Coord := Coord) id wl gl w)) = weather_result wl /\
  countryName (clickedInfo (app (settle_call (Coord := Coord) id wl gl w))) =
    Some (country_result gl) /\
  position (clickedInfo (app (settle_call (Coord := Coord) id wl gl w))) =
    position (clickedInfo (app w)).
Proof.
  intros Hid. destruct (run_call w id wl gl Hid) as [-> _].
  rewrite geo_done_country. destruct wl; repeat split; reflexivity.
Qed.

Lemma settle_other_task (w : World) id j (d : delivery) :
  j <> id -> tasks (settle j d w) !! id = tasks w !! id.
Proof.
  intros Hne. unfold settle. destruct (tasks w !! j) as [k |]; [|reflexivity].
  destruct k, d as [[u | r] | [b | r] | [[g |] | r]]; simpl;
    first [ apply lookup_insert_ne; assumption
          | apply lookup_delete_ne; assumption ].
Qed.

Lemma run_others (evs : list event) id : forall w : World,
  Forall (settles_other id) evs ->
  tasks (run w evs) !! id = tasks w !! id /\
  position (clickedInfo (app (run w evs))) = position (clickedInfo (app w)).
Proof.
  induction evs as [| ev evs IH]; intros w H; [split; reflexivity|].
  inversion H as [| ? ? Hev Hevs]; subst.
  destruct ev as [lat lon pos | j d |]; simpl in Hev; try contradiction.
  simpl. destruct (IH (settle j d w) Hevs) as [-> ->].
  split; [apply settle_other_task; assumption | apply settle_position].
Qed.

(** What one settlement does to the three fields, by the stage of the
    call and the delivery. *)
Lemma settle_effect (w : World) id k (d : delivery) :
  tasks w !! id = Some k ->
  position (clickedInfo (app (settle id d w))) = position (clickedInfo (app w)) /\
  weather (app (settle id d w)) =
    match weather_written k d with
    | Some b => b
    | None => weather (app w)
    end /\
  countryName (clickedInfo (app (settle id d w))) =
    match name_written k d with
    | Some c => Some c
    | None => countryName (clickedInfo (app w))
    end /\
  (forall c, name_written k d = Some c -> tasks (settle id d w) !! id = None).
Proof.
  intros Hid. unfold settle. rewrite Hid.
  destruct k, d as [[u | r] | [b | r] | [[g |] | r]]; simpl;
    rewrite ?applyGeoData_country; simpl;
    (split; [reflexivity |]); (split; [reflexivity |]);
    (split; [reflexivity |]); intros c Hc;
    first [ discriminate | apply lookup_delete_eq ].
Qed.

Lemma unnamed_written (k : stage) (d : delivery) :
  unnamed k d = true ->
  name_written k d = Some "Unknown Country" /\ weather_written k d = None.
Proof.
  destruct k, d as [[u | r] | [b | r] | [[g |] | r]]; simpl;
    try discriminate; try (split; reflexivity).
  intros H. split; [| reflexivity]. f_equal.
  unfold has_country in H. unfold country_of.
  destruct (address g) as [[[c |]] |]; simpl in *; try reflexivity.
  destruct (truthy c); [discriminate | reflexivity].
Qed.

(** C8: the completions of the two lookups commute on the React state,
    each writing its own field only: the weather lookup leaves
    [clickedInfo] alone and the place-name lookup leaves [weather] and
    [position] alone; and the state a selection ends in is fixed by the
    click and the two results.  (In [handleGlobeClick] the place-name
    lookup is only started once the weather lookup is over.) *)
Theorem lookup_completions_commute (a : App)
    (wl : lookup (option Weather)) (gl : lookup (option GeoData)) :
  geo_done gl (weather_done wl a) = weather_done wl (geo_done gl a) /\
  clickedInfo (weather_done wl a) = clickedInfo a /\
  weather (geo_done gl a) = weather a /\
  position (clickedInfo (geo_done gl a)) = position (clickedInfo a) /\
  (forall (w : World) (lat lon : Coord) (pos : Position),
     app (select lat lon pos wl gl w) =
     geo_done gl (weather_done wl
       (mkApp (weather (app w)) (mkInfo (Some pos) None)))).
Proof.
  rewrite !geo_done_country.
  split; [destruct wl; reflexivity |].
  split; [destruct wl; reflexivity |].
  split; [reflexivity |].
  split; [reflexivity |].
  intros w lat lon pos. unfold select.
  destruct (run_call (step w (Click lat lon pos)) (started w) wl gl) as [-> _].
  - cbn [step handleGlobeClick tasks]. apply lookup_insert_eq.
  - rewrite !geo_done_country. reflexivity.
Qed.

(** C7, as the code has it: when the place-name lookup of a click fails or
    finds no country, the call ends with [countryName] set to
    "Unknown Country" and nothing pending, whatever the weather lookup
    did; no resumption of [handleGlobeClick] ends in a throw.  For a call
    that runs from the click to its end with nothing else in between,
    [weather] holds what its weather lookup left, so the state is Populated
    exactly when that lookup delivered a body.  Whatever else happens
    while a call is in flight, the delivery that ends its place-name lookup
    by a failure or without a country sets [countryName] to
    "Unknown Country", ends the call and leaves [weather] alone; the state
    is then Populated exactly when [weather] is present at that moment. *)
Theorem place_name_sentinel (w : World) (lat lon : Coord) (pos : Position)
    (wl : lookup (option Weather)) (gl : lookup (option GeoData)) :
  no_country gl = true ->
  countryName (clickedInfo (app (select lat lon pos wl gl w))) =
    Some "Unknown Country" /\
  tasks (select lat lon pos wl gl w) !! started w = None /\
  position (clickedInfo (app (select lat lon pos wl gl w))) = Some pos /\
  weather (app (select lat lon pos wl gl w)) = weather_result wl /\
  (populated (app (select lat lon pos wl gl w)) = true <->
   is_Some (weather_result wl)) /\
  (forall k (d : delivery) (w0 : World) e,
     (resume k d w0).2 <> finish (throw e)) /\
  (forall (w0 : World) id k (d : delivery),
     tasks w0 !! id = Some k -> unnamed k d = true ->
     countryName (clickedInfo (app (settle id d w0))) = Some "Unknown Country" /\
     tasks (settle id d w0) !! id = None /\
     weather (app (settle id d w0)) = weather (app w0) /\
     (populated (app (settle id d w0)) = true <-> is_Some (weather (app w0)))).
Proof.
  intros Hno. unfold select.
  assert (Hid : tasks (step w (Click lat lon pos)) !! started w =
                Some awaitWeatherFetch).
  { cbn [step handleGlobeClick tasks]. apply lookup_insert_eq. }
  destruct (call_results _ _ wl gl Hid) as (Hw & Hc & Hp).
  destruct (run_call _ _ wl gl Hid) as [_ Ht].
  rewrite (no_country_result gl Hno) in Hc.
  split; [exact Hc |].
  split; [rewrite Ht; apply lookup_delete_eq |].
  split; [rewrite Hp; reflexivity |].
  split; [exact Hw |].
  split.
  { unfold populated. rewrite Hw, Hc.
    destruct (weather_result wl); split; intros H;
      first [ reflexivity | discriminate | solve [eauto]
            | destruct H; discriminate ]. }
  split; [exact handler_returns |].
  intros w0 id k d Hk Hun.
  destruct (unnamed_written k d Hun) as [Hname Hweather].
  destruct (settle_effect w0 id k d Hk) as (_ & Hw0 & Hc0 & Ht0).
  rewrite Hweather in Hw0. rewrite Hname in Hc0.
  split; [exact Hc0 |].
  split; [apply (Ht0 _ Hname) |].
  split; [exact Hw0 |].
  unfold populated. rewrite Hw0, Hc0.
  destruct (weather (app w0)); split; intros H;
    first [ reflexivity | discriminate | solve [eauto]
          | destruct H; discriminate ].
Qed.

(** C3, as the code has it: a dismissal clears the three fields and
    leaves the calls in flight; no lookup that completes afterwards sets
    [position] again, so the panel stays hidden.  But the results that
    arrive after the dismissal are written: at any time after it, in a
    call at any stage, the delivery that ends a weather lookup sets
    [weather] to its body ([null] after a failure) and the delivery that
    ends a place-name lookup sets [countryName] to the name it gave; a
    delivery that ends neither leaves the field as it is, and a call that
    is past its weather lookup writes [weather] no more. *)
Theorem dismissal_clears_position_only (w : World) :
  panel (app w) = true ->
  cleared (app (step w (Close (Coord := Coord)))) /\
  (forall evs : list event, Forall is_settle evs ->
     position (clickedInfo (app (run (step w (Close (Coord := Coord))) evs))) = None /\
     panel (app (run (step w (Close (Coord := Coord))) evs)) = false) /\
  tasks (step w (Close (Coord := Coord))) = tasks w /\
  (forall (evs : list event) id k (d : delivery),
     Forall is_settle evs ->
     tasks (run (step w (Close (Coord := Coord))) evs) !! id = Some k ->
     weather (app (settle id d (run (step w (Close (Coord := Coord))) evs))) =
       match weather_written k d with
       | Some b => b
       | None => weather (app (run (step w (Close (Coord := Coord))) evs))
       end /\
     countryName
       (clickedInfo (app (settle id d (run (step w (Close (Coord := Coord))) evs)))) =
       match name_written k d with
       | Some c => Some c
       | None =>
           countryName
             (clickedInfo (app (run (step w (Close (Coord := Coord))) evs)))
       end) /\
  (forall d : delivery,
     weather_written awaitGeoFetch d = None /\
     weather_written awaitGeoJson d = None).
Proof.
  intros Hpanel. cbn [step]. rewrite Hpanel.
  split; [repeat split |].
  split.
  - intros evs Hevs.
    assert (Hpos : position (clickedInfo
                     (app (run (on_app handleCloseWeather w) evs))) = None).
    { rewrite run_settles_position by assumption. reflexivity. }
    split; [exact Hpos | apply panel_needs_position, Hpos].
  - split; [reflexivity |].
    split; [| intros d; split; reflexivity].
    intros evs id k d _ Hid.
    destruct (settle_effect _ id k d Hid) as (_ & Hw & Hc & _).
    split; assumption.
Qed.


(** When the call of a superseded selection is still at its first [await]
    and its two lookups then end one after the other, after any number of
    settlements in other calls, both fields end as that call wrote them. *)
Lemma superseded_call_ends_last (w : World)
    (latA lonA latB lonB : Coord) (pA pB : Position) (evs : list event)
    (wl : lookup (option Weather)) (gl : lookup (option GeoData)) :
  Forall (settles_other (started w)) evs ->
  position (clickedInfo (app (settle_call (Coord := Coord) (started w) wl gl
    (run w (Click latA lonA pA :: Click latB lonB pB :: evs))))) = Some pB /\
  weather (app (settle_call (Coord := Coord) (started w) wl gl
    (run w (Click latA lonA pA :: Click latB lonB pB :: evs)))) =
    weather_result wl /\
  countryName (clickedInfo (app (settle_call (Coord := Coord) (started w) wl gl
    (run w (Click latA lonA pA :: Click latB lonB pB :: evs))))) =
    Some (country_result gl).
Proof.
  intros Hevs. cbn [run fold_left].
  fold (run (Coord := Coord)
          (step (step w (Click latA lonA pA)) (Click latB lonB pB)) evs).
  destruct (run_others evs (started w)
              (step (step w (Click latA lonA pA)) (Click latB lonB pB)) Hevs)
    as [Ht Hp].
  assert (Hid : tasks (run (step (step w (Click latA lonA pA))
                             (Click latB lonB pB)) evs) !! started w =
                Some awaitWeatherFetch).
  { rewrite Ht. cbn [step handleGlobeClick tasks started].
    rewrite lookup_insert_ne by lia. apply lookup_insert_eq. }
  destruct (call_results _ _ wl gl Hid) as (Hw & Hc & Hpos).
  split; [rewrite Hpos, Hp; reflexivity |].
  split; assumption.
Qed.

Lemma country_of_truthy (g : GeoData) : truthy (country_of g) = true.
Proof.
  unfold country_of. destruct (address g) as [[[c |]] |]; try reflexivity.
  simpl. destruct (truthy c) eqn:E; [exact E | reflexivity].
Qed.

Lemma country_result_truthy (gl : lookup (option GeoData)) :
  truthy (country_result gl) = true.
Proof.
  destruct gl as [e | e | [g |]]; try reflexivity. apply country_of_truthy.
Qed.

Lemma truthy_nonempty (c : string) : truthy c = true -> c <> "".
Proof. intros H ->. discriminate. Qed.

(** X18: a selection that runs from the click to the end of its call with
    nothing else in between, and whose weather lookup delivers a body that
    is not [null], ends with the condition of line 261 true, so that [App]
    hands [WeatherInfo] that body as [weather], the clicked position and a
    country name that is never empty ("Unknown Country" at the least), and
    with no lookup of the call pending.  What [WeatherInfo] makes of the
    body is not part of the statement. *)
Theorem selection_ends_populated (w : World) (lat lon : Coord) (pos : Position)
    (wd : Weather) (gl : lookup (option GeoData)) :
  panel (app (select lat lon pos (delivers (Some wd)) gl w)) = true /\
  weather (app (select lat lon pos (delivers (Some wd)) gl w)) = Some wd /\
  position (clickedInfo (app (select lat lon pos (delivers (Some wd)) gl w))) =
    Some pos /\
  countryName (clickedInfo (app (select lat lon pos (delivers (Some wd)) gl w))) =
    Some (country_result gl) /\
  country_result gl <> "" /\
  tasks (select lat lon pos (delivers (Some wd)) gl w) !! started w = None.
Proof.
  unfold select.
  assert (Hid : tasks (step w (Click lat lon pos)) !! started w =
                Some awaitWeatherFetch).
  { cbn [step handleGlobeClick tasks]. apply lookup_insert_eq. }
  destruct (call_results _ _ (delivers (Some wd)) gl Hid) as (Hw & Hc & Hp).
  destruct (run_call _ _ (delivers (Some wd)) gl Hid) as [_ Ht].
  cbn [weather_result] in Hw.
  assert (Hpos : position (clickedInfo (app (settle_call (Coord := Coord)
                   (started w) (delivers (Some wd)) gl
                   (step w (Click lat lon pos))))) = Some pos).
  { rewrite Hp. reflexivity. }
  split; [unfold panel; rewrite Hw, Hpos; reflexivity |].
  split; [exact Hw |].
  split; [exact Hpos |].
  split; [exact Hc |].
  split; [apply truthy_nonempty, country_result_truthy |].
  rewrite Ht. apply lookup_delete_eq.
Qed.

Lemma step_named (w : World) (e : event) :
  named (app w) -> named (app (step w e)).
Proof.
  intros Hn. destruct e as [lat lon pos | id d |]; cbn [step].
  - intros c H. discriminate.
  - unfold settle. destruct (tasks w !! id) as [k |]; [| exact Hn].
    destruct k, d as [[u | r] | [b | r] | [[g |] | r]]; simpl;
      try exact Hn;
      try (intros c [= <-]; discriminate).
    rewrite applyGeoData_country. intros c [= <-].
    apply truthy_nonempty, country_of_truthy.
  - destruct (panel (app w)); [| exact Hn]. intros c H. discriminate.
Qed.

(** X19: whatever the user does and whatever the lookups return, the
    country name in the state is never the empty string. *)
Theorem country_name_never_empty (evs : list event) (c : string) :
  countryName (clickedInfo (app (run (start (Weather := Weather)
                                        (Position := Position)) evs))) = Some c ->
  c <> "".
Proof.
  assert (H : forall (l : list event) (w : World),
             named (app w) -> named (app (run w l))).
  { induction l as [| e l IH]; intros w Hw; [exact Hw |].
    cbn [run fold_left]. apply (IH (step w e)), step_named, Hw. }
  apply (H evs start). intros c' Hc'. discriminate.
Qed.

Lemma step_without_weather (w : World) (e : event) :
  ~ brings_weather e -> weather (app w) = None ->
  weather (app (step w e)) = None.
Proof.
  intros He Hw. destruct e as [lat lon pos | id d |]; cbn [step].
  - exact Hw.
  - unfold settle. destruct (tasks w !! id) as [k |]; [| exact Hw].
    destruct k, d as [[u | r] | [[b |] | r] | [[g |] | r]]; simpl;
      try exact Hw; try reflexivity.
    + exfalso. apply He. exact I.
    + rewrite applyGeoData_country. exact Hw.
  - destruct (panel (app w)); [reflexivity | exact Hw].
Qed.

(** X20: [weather] is set by nothing but the delivery of a weather body:
    as long as none has been delivered, clicks, responses, failures and
    place names leave it [null], and the panel is not rendered. *)
Theorem no_panel_before_weather (w : World) (evs : list event) :
  weather (app w) = None ->
  Forall (fun e => ~ brings_weather e) evs ->
  weather (app (run w evs)) = None /\ panel (app (run w evs)) = false.
Proof.
  intros Hw Hevs.
  assert (H : weather (app (run w evs)) = None).
  { revert w Hw. induction Hevs as [| e evs He _ IH]; intros w Hw; [exact Hw |].
    cbn [run fold_left]. apply (IH (step w e)), step_without_weather; assumption. }
  split; [exact H |]. unfold panel. rewrite H. reflexivity.
Qed.

Lemma step_numbered (w : World) (e : event) : numbered w -> numbered (step w e).
Proof.
  intros Hn. destruct e as [lat lon pos | id d |]; cbn [step].
  - intros j k Hj. cbn [handleGlobeClick tasks started] in *.
    destruct (decide (started w = j)) as [<- | Hne]; [lia |].
    rewrite lookup_insert_ne in Hj by assumption. apply Hn in Hj. lia.
  - unfold settle. destruct (tasks w !! id) as [k0 |] eqn:Hid; [| exact Hn].
    destruct k0, d as [[u | r] | [b | r] | [[g |] | r]]; simpl;
      intros j k Hj; cbn in Hj;
      (destruct (decide (id = j)) as [<- | Hne];
       [ apply (Hn id _ Hid)
       | first [ rewrite lookup_insert_ne in Hj by assumption
               | rewrite lookup_delete_ne in Hj by assumption ];
         apply (Hn j k Hj) ]).
  - destruct (panel (app w)); exact Hn.
Qed.

Lemma run_numbered (evs : list event) :
  numbered (run (start (Weather := Weather) (Position := Position)) evs).
Proof.
  assert (H : forall (l : list event) (w : World),
             numbered w -> numbered (run w l)).
  { induction l as [| e l IH]; intros w Hw; [exact Hw |].
    cbn [run fold_left]. apply (IH (step w e)), step_numbered, Hw. }
  apply H. intros id k Hk. cbn in Hk. rewrite lookup_empty in Hk. discriminate.
Qed.

(** X21: every click starts a call of its own, whatever is pending: the
    calls in flight stay in flight at their stage and the new call is added
    to them, so quick clicks pile up concurrent lookups. *)
Theorem click_adds_a_call (evs : list event) (lat lon : Coord) (pos : Position) :
  size (tasks (step (run start evs) (Click lat lon pos))) =
    S (size (tasks (run (start (Weather := Weather) (Position := Position)) evs))) /\
  (forall id k, tasks (run start evs) !! id = Some k ->
     tasks (step (run start evs) (Click lat lon pos)) !! id = Some k).
Proof.
  pose proof (run_numbered evs) as Hn.
  set (w := run start evs) in *.
  assert (Hfresh : tasks w !! started w = None).
  { destruct (tasks w !! started w) as [k |] eqn:Hk; [| reflexivity].
    apply Hn in Hk. lia. }
  cbn [step handleGlobeClick tasks]. split.
  - apply map_size_insert_None, Hfresh.
  - intros id k Hk. rewrite lookup_insert_ne; [exact Hk |].
    intros <-. congruence.
Qed.

End App.

(** C3 fails: the second selection is dismissed while the panel is up and
    both of its lookups are pending; the state is cleared; when the lookups
    end, [weather] and [countryName] are filled again. *)
Lemma dismissed_selection_repopulated :
  panel (app clickedB) = true /\
  tasks closedB !! 1 = Some awaitWeatherFetch /\
  cleared (app closedB) /\
  app lateB = mkApp (Some "wB") (mkInfo None (Some "Brazil")) /\
  ~ cleared (app lateB).
Proof.
  split; [reflexivity |].
  split; [vm_compute; reflexivity |].
  split; [repeat split |].
  split; [vm_compute; reflexivity |].
  intros [H _]. vm_compute in H. discriminate.
Qed.

Lemma dismissal_clears_position_only_witness :
  panel (app clickedB) = true /\
  cleared (app (step clickedB (Close (Coord := Z)))).
Proof.
  assert (H : panel (app clickedB) = true) by reflexivity.
  split; [exact H |].
  exact (proj1 (dismissal_clears_position_only (Coord := Z) clickedB H)).
Defined.



(** The interleaving weather of the first, weather of the second, place
    name of the first: the state ends with the weather of the second
    selection and the place name of the first. *)
Example interleaved_results :
  app interleaved = mkApp (Some "wB") (mkInfo (Some "pB") (Some "France")).
Proof. vm_compute. reflexivity. Qed.

(** A single selection dismissed after its weather has arrived: the late
    place name fills [countryName]; [weather] stays [null]. *)
Example dismissed_between_lookups :
  cleared (app closedSingle) /\
  tasks closedSingle !! 0 = Some awaitGeoFetch /\
  app lateSingle = mkApp None (mkInfo None (Some "France")).
Proof.
  split; [vm_compute; repeat split |].
  split; vm_compute; reflexivity.
Qed.

(** C7 fails: with the network down both lookups fail; [countryName] is
    the sentinel but [weather] is [null], so the state is not Populated
    and the panel is not shown. *)
Lemma offline_click_not_populated :
  no_country (fetchFails "NetworkError") = true /\
  countryName (clickedInfo (app offline)) = Some "Unknown Country" /\
  weather (app offline) = None /\
  populated (app offline) = false /\
  panel (app offline) = false.
Proof. vm_compute. repeat split. Qed.

Lemma place_name_sentinel_witness :
  no_country (delivers (Some mid_ocean)) = true /\
  countryName (clickedInfo (app
    (select 0%Z 0%Z "p" (delivers (Some "w")) (delivers (Some mid_ocean))
       (start (Weather := string) (Position := string))))) =
    Some "Unknown Country".
Proof.
  assert (H : no_country (delivers (Some mid_ocean)) = true) by reflexivity.
  split; [exact H |].
  exact (proj1 (place_name_sentinel start 0%Z 0%Z "p"
                  (delivers (Some "w")) (delivers (Some mid_ocean)) H)).
Defined.

Lemma country_name_never_empty_witness :
  countryName (clickedInfo (app (run
    (start (Weather := string) (Position := string))
    [Click 48%Z 2%Z "pA"; Settle 0 (response (rejected "NetworkError"));
     Settle 0 (response (rejected "NetworkError"))]))) =
    Some "Unknown Country" /\
  "Unknown Country" <> "".
Proof.
  assert (H : countryName (clickedInfo (app (run
                (start (Weather := string) (Position := string))
                [Click 48%Z 2%Z "pA"; Settle 0 (response (rejected "NetworkError"));
                 Settle 0 (response (rejected "NetworkError"))]))) =
              Some "Unknown Country") by (vm_compute; reflexivity).
  split; [exact H |].
  exact (country_name_never_empty _ _ H).
Defined.

Lemma no_panel_before_weather_witness :
  weather (app (start (Weather := string) (Position := string))) = None /\
  Forall (fun e : @event Z string string => ~ brings_weather e)
    [Click 48%Z 2%Z "pA"; Settle 0 (response (fulfilled tt))] /\
  panel (app (run (start (Weather := string) (Position := string))
                [Click 48%Z 2%Z "pA"; Settle 0 (response (fulfilled tt))])) = false.
Proof.
  assert (H1 : weather (app (start (Weather := string) (Position := string))) = None)
    by reflexivity.
  assert (H2 : Forall (fun e : @event Z string string => ~ brings_weather e)
                 [Click 48%Z 2%Z "pA"; Settle 0 (response (fulfilled tt))]).
  { repeat constructor; intros H; exact H. }
  split; [exact H1 | split; [exact H2 |]].
  exact (proj2 (no_panel_before_weather start _ H1 H2)).
Defined.

End CoordinatorProps.

(** ** The animated scene *)

Module SceneProps.
Import Geo Scene.
Local Open Scope R_scope.

Lemma sub_lerp (p t : Vector3) (alpha : R) :
  sub (lerp p t alpha) t = multiplyScalar (1 - alpha) (sub p t).
Proof. unfold sub, lerp, multiplyScalar; simpl. f_equal; ring. Qed.

Lemma distance_after_frame (p t : Vector3) :
  distanceTo (lerp p t (1 / 10)) t = 9 / 10 * distanceTo p t.
Proof.
  unfold distanceTo. rewrite sub_lerp.
  replace (1 - 1 / 10) with (9 / 10) by field.
  apply GeoProps.length_multiplyScalar. lra.
Qed.

(** X7: while [issPosition] stays the same, every frame brings the mesh a
    tenth of the remaining way towards the point above that position: after
    [n] frames its distance from that point is [(9/10)^n] times the distance
    it started from. *)
Theorem iss_mesh_approaches_target (n : nat) (lat lon : R) (p : Vector3) :
  match issFrames n lat lon (Some p) with
  | Some q =>
      distanceTo q (getVectorFromLatLon lat lon (12 / 10)) =
      (9 / 10) ^ n * distanceTo p (getVectorFromLatLon lat lon (12 / 10))
  | None => False
  end.
Proof.
  revert p. induction n as [| n IH]; intros p.
  - simpl. ring.
  - cbn [issFrames issFrame].
    specialize (IH (lerp p (getVectorFromLatLon lat lon (12 / 10)) (1 / 10))).
    destruct (issFrames n lat lon _) as [q |]; [| exact IH].
    rewrite IH, distance_after_frame. simpl. ring.
Qed.

Lemma run_interacting (evs : list event) : forall g,
  isInteractingWithGlobe g = true -> ~ In End evs ->
  rotationY (run g evs) = rotationY g /\
  isInteractingWithGlobe (run g evs) = true.
Proof.
  induction evs as [| e evs IH]; intros g Hg Hend; [split; [reflexivity | exact Hg] |].
  assert (Hrest : ~ In End evs) by (intros H; apply Hend; right; exact H).
  destruct e; cbn [run fold_left step].
  - rewrite Hg. apply IH; assumption.
  - destruct (IH (mkGlobe (rotationY g) true) eq_refl Hrest) as [Hr Hi].
    split; assumption.
  - exfalso. apply Hend. left. reflexivity.
Qed.

Lemma run_never_turns_back (evs : list event) : forall g,
  rotationY g <= rotationY (run g evs).
Proof.
  induction evs as [| e evs IH]; intros g; [apply Rle_refl |].
  cbn [run fold_left]. eapply Rle_trans; [| apply IH].
  destruct e; simpl; try apply Rle_refl.
  destruct (isInteractingWithGlobe g); simpl; lra.
Qed.

(** X8: the globe never turns back, and from the start of an interaction
    until its end no frame turns it at all. *)
Theorem globe_rests_while_interacting (g : Globe) (evs : list event) :
  rotationY g <= rotationY (run g evs) /\
  (~ In End evs -> rotationY (run g (Start :: evs)) = rotationY g).
Proof.
  split; [apply run_never_turns_back |].
  intros Hend. cbn [run fold_left step].
  apply (run_interacting evs (mkGlobe (rotationY g) true) eq_refl Hend).
Qed.

End SceneProps.

(** ** The weather panel *)

Module PanelProps.
Import Weather Panel.
Local Open Scope Z_scope.

Example drag_example :
  offset (run initial (gesture (10, 10) [(12, 15); (30, 40)])) = (20, 30).
Proof. reflexivity. Qed.

Example second_drag_example :
  offset (run initial (gesture (10, 10) [(30, 40)] ++ gesture (5, 5) [(0, 0)])) =
  (15, 25).
Proof. reflexivity. Qed.

Lemma run_app (d : Drag) (evs1 evs2 : list mouse) :
  run d (evs1 ++ evs2) = run (run d evs1) evs2.
Proof. apply fold_left_app. Qed.

Lemma moves_keep_drag (path : list (Z * Z)) : forall d,
  isDragging d = true ->
  isDragging (run d (moves path)) = true /\
  startDrag (run d (moves path)) = startDrag d.
Proof.
  induction path as [| p path IH]; intros d Hd; [split; [exact Hd | reflexivity] |].
  cbn [moves map run fold_left step]. rewrite Hd.
  unfold handleMouseMove. rewrite Hd.
  apply (IH (mkDrag true _ (startDrag d))). reflexivity.
Qed.

(** X9: a drag moves the panel by the displacement of the pointer: after
    mouse down at [down], moves along [path] and mouse up, the offset is
    the offset before the gesture plus the last pointer position minus
    [down], wherever the pointer went in between, and the drag is over. *)
Theorem drag_moves_panel_by_displacement (d : Drag) (down : Z * Z)
    (path : list (Z * Z)) :
  offset (run d (gesture down path)) =
    (fst (offset d) + (fst (List.last path down) - fst down),
     snd (offset d) + (snd (List.last path down) - snd down)) /\
  isDragging (run d (gesture down path)) = false.
Proof.
  unfold gesture. cbn [run fold_left step].
  set (d1 := handleMouseDown (fst down) (snd down) d).
  fold (run d1 (moves path ++ [MouseUp])).
  assert (Hd1 : isDragging d1 = true) by reflexivity.
  destruct (moves_keep_drag path d1 Hd1) as [Hdrag Hstart].
  rewrite run_app. cbn [run fold_left step]. rewrite Hdrag.
  split; [| reflexivity]. cbn [handleMouseUp offset].
  destruct path as [| p0 path0] using rev_ind.
  - simpl. destruct (offset d) as [ox oy]. simpl. f_equal; lia.
  - clear IHpath0. rewrite List.last_last.
    unfold moves. rewrite map_app. fold (moves path0). rewrite run_app.
    destruct (moves_keep_drag path0 d1 Hd1) as [Hdrag0 Hstart0].
    cbn [map run fold_left step]. rewrite Hdrag0.
    unfold handleMouseMove. rewrite Hdrag0. cbn [offset]. rewrite Hstart0.
    unfold d1. cbn [handleMouseDown startDrag fst snd].
    destruct (offset d) as [ox oy]. simpl. f_equal; lia.
Qed.

(** X10: without a mouse down on the panel nothing moves it: pointer moves
    and mouse ups outside a drag leave the drag state as it is. *)
Theorem pointer_ignored_outside_drag (d : Drag) (evs : list mouse) :
  isDragging d = false ->
  Forall (fun e => match e with MouseDown _ _ => False | _ => True end) evs ->
  run d evs = d.
Proof.
  intros Hd Hevs. induction Hevs as [| e evs He _ IH]; [reflexivity |].
  destruct e; try contradiction; cbn [run fold_left step]; rewrite Hd; exact IH.
Qed.

Lemma pointer_ignored_outside_drag_witness :
  isDragging initial = false /\
  Forall (fun e => match e with MouseDown _ _ => False | _ => True end)
    [MouseMove 3 4; MouseUp] /\
  run initial [MouseMove 3 4; MouseUp] = initial.
Proof.
  assert (H1 : isDragging initial = false) by reflexivity.
  assert (H2 : Forall (fun e => match e with MouseDown _ _ => False | _ => True end)
                 [MouseMove 3 4; MouseUp]) by (repeat constructor).
  split; [exact H1 | split; [exact H2 |]].
  exact (pointer_ignored_outside_drag initial _ H1 H2).
Defined.

Section Forecast.
Context {Temp : Type}.

(** X11: the forecast has one line for each of the first three days of
    [daily.time] and no more; line [i] carries day [i] and a description
    that is never empty, which is "Unknown weather" when [weather_code] has
    no entry [i]. *)
Theorem forecast_rows (d : @Daily Temp) :
  List.length (forecastRows d) = Nat.min 3 (List.length (time d)) /\
  (forall (i : nat) (row : @Row Temp),
     forecastRows d !! i = Some row ->
     (i < 3)%nat /\ time d !! i = Some (date row) /\
     description row <> ""%string /\
     ((List.length (weather_code d) <= i)%nat ->
      description row = "Unknown weather"%string)).
Proof.
  unfold forecastRows, dailyForecast. split.
  - rewrite length_imap, length_take. reflexivity.
  - intros i row Hrow. rewrite list_lookup_imap in Hrow.
    destruct (take 3 (time d) !! i) as [day |] eqn:Hday; [| discriminate].
    simpl in Hrow. injection Hrow as <-. cbn [date description].
    apply lookup_take_Some in Hday as [Hday Hi].
    split; [exact Hi |]. split; [exact Hday |].
    split; [apply WeatherProps.description_nonempty |].
    intros Hlen. unfold code_at.
    rewrite (lookup_ge_None_2 (weather_code d) i) by lia. reflexivity.
Qed.

End Forecast.
End PanelProps.

(** ** The event markers *)

Module MarkersProps.
Import Geo Markers.
Local Open Scope string_scope.

Lemma marker_is_Some (e : Event) : is_Some (marker e) <-> well_formed e.
Proof.
  unfold marker, well_formed.
  destruct (geometries e) as [| [lon lat] gs], (categories e) as [| c cs];
    split; intros H; try (destruct H as [? H]; discriminate);
    try (destruct H as [H1 H2]; congruence); eauto.
Qed.

(** X12: the markers are rendered if and only if every event of the feed
    has at least one geometry and one category; a single event without
    them makes the whole render throw, the well-formed events included. *)
Theorem render_succeeds_iff_well_formed (events : list Event) :
  is_Some (render events) <-> Forall well_formed events.
Proof.
  unfold render. rewrite mapM_is_Some.
  apply Forall_iff. intros e. apply marker_is_Some.
Qed.

Lemma marker_on_sphere (e : Event) (m : Marker) :
  marker e = Some m ->
  key m = eventId e /\ length (position m) = (101 / 100)%R /\
  (markerColour m = orange <-> exists c cs, categories e = c :: cs /\ categoryId c = "severeStorms").
Proof.
  unfold marker. destruct (geometries e) as [| [lon lat] gs]; [discriminate |].
  destruct (categories e) as [| c cs]; [discriminate |].
  intros [= <-]. cbn [key position markerColour].
  split; [reflexivity |].
  split; [apply GeoProps.on_sphere; lra |].
  unfold markerColor. split.
  - intros H. exists c, cs. split; [reflexivity |].
    destruct (String.eqb_spec (categoryId c) "severeStorms"); [assumption |].
    destruct (categoryId c =? "volcanoes")%string; discriminate.
  - intros (c' & cs' & [= <- <-] & Hc). rewrite Hc. reflexivity.
Qed.

(** X13: a render that succeeds shows one marker per event, in the order of
    the feed; marker [i] is keyed by the id of event [i], lies at distance
    1.01 from the centre of the globe, and is orange exactly when the first
    category of its event is severeStorms. *)
Theorem rendered_markers (events : list Event) (ms : list Marker) :
  render events = Some ms ->
  List.length ms = List.length events /\
  (forall (i : nat) (e : Event) (m : Marker),
     events !! i = Some e -> ms !! i = Some m ->
     key m = eventId e /\ length (position m) = (101 / 100)%R /\
     (markerColour m = orange <->
      exists c cs, categories e = c :: cs /\ categoryId c = "severeStorms")).
Proof.
  unfold render. intros H. apply mapM_Some in H.
  split; [symmetry; eapply Forall2_length; exact H |].
  intros i e m He Hm.
  apply marker_on_sphere.
  exact (Forall2_lookup_lr _ _ _ _ _ _ H He Hm).
Qed.

Lemma rendered_markers_witness :
  render [mkEvent "EONET_1" "Storm" [(10, 20)%R]
            [mkCategory "severeStorms" "Severe Storms"]] =
    Some [mkMarker "EONET_1" (getVectorFromLatLon 20 10 (101 / 100)) orange] /\
  List.length [mkMarker "EONET_1" (getVectorFromLatLon 20 10 (101 / 100)) orange] =
    List.length [mkEvent "EONET_1" "Storm" [(10, 20)%R]
                   [mkCategory "severeStorms" "Severe Storms"]].
Proof.
  assert (H : render [mkEvent "EONET_1" "Storm" [(10, 20)%R]
                        [mkCategory "severeStorms" "Severe Storms"]] =
              Some [mkMarker "EONET_1" (getVectorFromLatLon 20 10 (101 / 100))
                      orange]) by reflexivity.
  split; [exact H |].
  exact (proj1 (rendered_markers _ _ H)).
Defined.

End MarkersProps.
